(** * RemoteArchiveDB: payload resolution and the buffering payload reader

    A shallow embedding of [src/remotearchivedb.js] (class [RemoteArchiveDB]
    and class [PayloadBufferingReader]) and the properties its specification
    states about it.

    JavaScript objects that the code mutates in place ([cdx], the reader
    instance) are the state of a small state-and-exception monad; the
    IndexedDB stores, the console and the network are the [World]. *)

From Stdlib Require Import ZArith String List Lia.
From Stdlib.Strings Require Import Byte.
From stdpp Require Import base gmap strings list.

Local Open Scope string_scope.
Local Open Scope Z_scope.
Local Open Scope list_scope.

(* ===================================================================== *)
(** * JavaScript values and scopes                                         *)
(* ===================================================================== *)

Definition Bytes := list Byte.byte.

(** The values that reach arguments whose type the code does not fix
    ([commitPayload]'s parameters, the argument of [AuthNeeded]). [VObj] is
    an object the model does not look into. *)
Inductive JsVal : Type :=
| VUndef
| VNum (z : Z)
| VStr (s : string)
| VBytes (b : Bytes)
| VObj (tag : string).

(** ToBoolean: a typed array is an object and is truthy even when empty. *)
Definition truthy (v : JsVal) : bool :=
  match v with
  | VUndef => false
  | VNum z => negb (Z.eqb z 0)
  | VStr s => negb (String.eqb s "")
  | VBytes _ => true
  | VObj _ => true
  end.

(** [v.length] *)
Definition js_length (v : JsVal) : option Z :=
  match v with
  | VStr s => Some (Z.of_nat (String.length s))
  | VBytes b => Some (Z.of_nat (List.length b))
  | _ => None
  end.

Definition of_ostr (o : option string) : JsVal :=
  match o with Some s => VStr s | None => VUndef end.

(** Truthiness of an optional string field ([undefined] and [""] are falsy). *)
Definition truthy_str (o : option string) : bool := truthy (of_ostr o).

(** Loose equality [==] between two optional strings / two numbers. *)
Definition ostr_eqb (a b : option string) : bool :=
  match a, b with
  | Some x, Some y => String.eqb x y
  | None, None => true
  | _, _ => false
  end.

(** Whether an optional property holds an object (objects are truthy). *)
Definition present {A} (o : option A) : bool :=
  match o with
  | Some _ => true
  | None => false
  end.

Definition Scope := list (string * JsVal).

Fixpoint scope_get (sc : Scope) (x : string) : option JsVal :=
  match sc with
  | [] => None
  | (y, v) :: rest => if String.eqb x y then Some v else scope_get rest x
  end.

(** Identifier resolution along a scope chain, innermost scope first. *)
Fixpoint resolve_ident (chain : list Scope) (x : string) : option JsVal :=
  match chain with
  | [] => None
  | sc :: outer =>
      match scope_get sc x with
      | Some v => Some v
      | None => resolve_ident outer x
      end
  end.

(** Top-level bindings of the module: its imports and its two classes. *)
Definition moduleScope : Scope :=
  [ ("ArchiveDB", VObj "class"); ("SingleRecordWARCLoader", VObj "class");
    ("AuthNeeded", VObj "class"); ("BaseAsyncIterReader", VObj "class");
    ("createLoader", VObj "function"); ("RemoteArchiveDB", VObj "class");
    ("PayloadBufferingReader", VObj "class") ].

(* ===================================================================== *)
(** * Data model                                                           *)
(* ===================================================================== *)

Definition Headers := list (string * string).
Definition ExtraOpts := list (string * string).
Definition Stream := Bytes.

Record Source := mkSource {
  src_path : string;
  src_start : Z;
  src_length : Z
}.

(** A catalog entry ("cdx"). Optional fields are [None] when the property is
    absent from the object. *)
Record Cdx := mkCdx {
  url : string;
  ts : Z;
  digest : option string;
  mime : option string;
  respHeaders : option Headers;
  source : Source;
  extraOpts : option ExtraOpts;
  payload : option Bytes
}.

Definition set_respHeaders (h : option Headers) (c : Cdx) : Cdx :=
  mkCdx (url c) (ts c) (digest c) (mime c) h (source c) (extraOpts c) (payload c).
Definition set_mime (m : option string) (c : Cdx) : Cdx :=
  mkCdx (url c) (ts c) (digest c) m (respHeaders c) (source c) (extraOpts c) (payload c).
Definition set_digest (d : option string) (c : Cdx) : Cdx :=
  mkCdx (url c) (ts c) d (mime c) (respHeaders c) (source c) (extraOpts c) (payload c).
Definition set_extraOpts (e : option ExtraOpts) (c : Cdx) : Cdx :=
  mkCdx (url c) (ts c) (digest c) (mime c) (respHeaders c) (source c) e (payload c).
Definition delete_payload (c : Cdx) : Cdx :=
  mkCdx (url c) (ts c) (digest c) (mime c) (respHeaders c) (source c) (extraOpts c) None.

(** A block loader: [createLoader(url, headers)] or the object handed to the
    constructor. *)
Record Loader := mkLoader {
  loader_url : string;
  loader_headers : Headers
}.

Record DigestRef := mkDigestRef {
  ref_count : Z;
  ref_size : option Z
}.

(** The store operations that the environment may make fail. *)
Inductive StoreOp : Type :=
| PayloadPut        (* tx.objectStore("payload").put, line 178 *)
| RefGet            (* tx.objectStore("digestRef").get, line 181 *)
| RefPut            (* tx.objectStore("digestRef").put, line 184 *)
| PayloadTxDone     (* await tx.done, line 188 *)
| ResourcesDbPut    (* this.db.put("resources", cdx), line 115 *)
| ResourcesPut      (* tx.store.put(cdx), line 153 *)
| ResourcesTxDone.  (* await tx.done, line 154 *)

Inductive Exn : Type :=
| AuthNeeded (info : JsVal)
| ReferenceError (ident : string)
| FetchError (status : option Z)
| DataError (store : string)
| StoreFailure (op : StoreOp).

(** [e.status] of a caught value *)
Definition status_of (e : Exn) : option Z :=
  match e with
  | FetchError st => st
  | _ => None
  end.

Inductive Msg : Type :=
| MNoRecord (u : string)
| MWrongUrl (expected got : string)
| MWrongTs (expected got : Z)
| MWrongDigest (expected got : option string)
| MRevisitLoop (u : string)
| MResourceUpdateError (u : string)
| MExn (e : Exn)
| MPayloadCommitError (e : Exn)
| MNotConsumed (limit : option Z).

(** What the code does to the outside, most recent first. *)
Inductive Event : Type :=
| EvGetRange (l : Loader) (start length : Z)
| EvLog (m : Msg)
| EvWarn (m : Msg)
| EvPayloadPut (payload digest : JsVal)
| EvRefPut (digest : string) (r : DigestRef)
| EvResourcesPut (c : Cdx).

(** Modelled from the spec: the object stores are declared by the parent
    class, in archivedb.js. The dedup store ("payload") maps a digest to the
    payload put under it, the ref store ("digestRef") a digest to its count
    and size, the catalog ("resources") a url and timestamp to the entry.
    [trace] is for the console and the calls that leave this file. *)
Record World := mkWorld {
  payloadStore : gmap string JsVal;
  digestRefStore : gmap string DigestRef;
  resourcesStore : gmap (string * Z) Cdx;
  trace : list Event
}.

Definition emit (e : Event) (w : World) : World :=
  mkWorld (payloadStore w) (digestRefStore w) (resourcesStore w) (e :: trace w).

Definition with_payloadStore (m : gmap string JsVal) (w : World) : World :=
  mkWorld m (digestRefStore w) (resourcesStore w) (trace w).
Definition with_digestRefStore (m : gmap string DigestRef) (w : World) : World :=
  mkWorld (payloadStore w) m (resourcesStore w) (trace w).
Definition with_resourcesStore (m : gmap (string * Z) Cdx) (w : World) : World :=
  mkWorld (payloadStore w) (digestRefStore w) m (trace w).

Inductive FetchOutcome : Type :=
| FetchOk (s : Stream)
| FetchFail (status : option Z).

(** The collaborators outside this file: the network, the URL parser, the
    parent class [ArchiveDB] and the failures of the IndexedDB stores. Each
    may depend on everything that happened so far. *)
Record Env := mkEnv {
  getRange : Loader -> Z -> Z -> World -> FetchOutcome;
  resolveURL : string -> option string -> string;
  super_loadPayload : Cdx -> World -> option Bytes;
  lookupUrl : string -> option Z -> World -> option Cdx;
  fails : StoreOp -> World -> bool;
  globalScope : Scope
}.

(* ===================================================================== *)
(** * State and exceptions                                                 *)
(* ===================================================================== *)

Inductive Outcome (A : Type) : Type :=
| Ok (a : A)
| Throw (e : Exn).
Arguments Ok {A} a.
Arguments Throw {A} e.

(** A computation over a mutable state [S]; the state survives a throw, as
    an object mutated before an exception stays mutated. *)
Definition ST (S A : Type) : Type := S -> Outcome A * S.

Definition st_ret {S A} (a : A) : ST S A := fun s => (Ok a, s).

Definition st_bind {S A B} (m : ST S A) (k : A -> ST S B) : ST S B :=
  fun s =>
    match m s with
    | (Ok a, s') => k a s'
    | (Throw e, s') => (Throw e, s')
    end.

Definition st_throw {S A} (e : Exn) : ST S A := fun s => (Throw e, s).

Definition try_catch {S A} (body : ST S A) (handler : Exn -> ST S A) : ST S A :=
  fun s =>
    match body s with
    | (Ok a, s') => (Ok a, s')
    | (Throw e, s') => handler e s'
    end.

Definition st_get {S} : ST S S := fun s => (Ok s, s).
Definition st_modify {S} (f : S -> S) : ST S unit := fun s => (Ok tt, f s).

(** Run a [World] computation while an object of type [O] is in scope. *)
Definition liftW {O A} (m : ST World A) : ST (O * World) A :=
  fun '(o, w) =>
    match m w with
    | (r, w') => (r, (o, w'))
    end.

Definition get_obj {O} : ST (O * World) O := fun '(o, w) => (Ok o, (o, w)).
Definition modify_obj {O} (f : O -> O) : ST (O * World) unit :=
  fun '(o, w) => (Ok tt, (f o, w)).

(** Call a method on another object [o'] and get the object back as the
    callee left it. *)
Definition with_object {O O' A} (o' : O') (m : ST (O' * World) A)
  : ST (O * World) (A * O') :=
  fun '(o, w) =>
    match m (o', w) with
    | (Ok a, (o'', w')) => (Ok (a, o''), (o, w'))
    | (Throw e, (_, w')) => (Throw e, (o, w'))
    end.

Declare Scope st_scope.
Delimit Scope st_scope with st.
Notation "x <- m ;; k" := (st_bind m (fun x => k))
  (at level 100, m at next level, k at level 200, right associativity) : st_scope.
Notation "m ;; k" := (st_bind m (fun _ => k))
  (at level 100, k at level 200, right associativity) : st_scope.
Local Open Scope st_scope.

Definition console_log (m : Msg) : ST World unit := st_modify (emit (EvLog m)).
Definition console_warn (m : Msg) : ST World unit := st_modify (emit (EvWarn m)).

(* ===================================================================== *)
(** * class RemoteArchiveDB                                                *)
(* ===================================================================== *)

Record RemoteArchiveDB := mkRemoteArchiveDB {
  name : string;
  remoteUrlPrefix : option string;
  headers : option Headers;
  loader : option Loader;
  useRefCounts : bool
}.

(** The two shapes of the constructor's second argument. *)
Inductive PrefixOrLoader : Type :=
| IsString (prefix : string)
| IsLoader (l : Loader).

(** [constructor(name, remotePrefixOrLoader, headers)] *)
Definition RemoteArchiveDB_new (nm : string) (remotePrefixOrLoader : PrefixOrLoader)
    (hdrs : option Headers) : RemoteArchiveDB :=
  match remotePrefixOrLoader with
  | IsString prefix => mkRemoteArchiveDB nm (Some prefix) hdrs None false
  | IsLoader l => mkRemoteArchiveDB nm None None (Some l) false
  end.

(** [updateHeaders(headers)] *)
Definition updateHeaders (hdrs : Headers) (this : RemoteArchiveDB) : RemoteArchiveDB :=
  match loader this with
  | Some l =>
      mkRemoteArchiveDB (name this) (remoteUrlPrefix this) (headers this)
        (Some (mkLoader (loader_url l) hdrs)) (useRefCounts this)
  | None =>
      mkRemoteArchiveDB (name this) (remoteUrlPrefix this) (Some hdrs)
        (loader this) (useRefCounts this)
  end.

(** [new Headers(init)] *)
Definition new_Headers (init : option Headers) : Headers :=
  match init with Some h => h | None => [] end.

(** [createLoader(url, headers)] *)
Definition createLoader (u : string) (hdrs : Headers) : Loader := mkLoader u hdrs.

Definition is_auth_status (st : option Z) : bool :=
  match st with
  | Some s => Z.eqb s 401 || Z.eqb s 403
  | None => false
  end.

(** Modelled from the spec: the identity of a payload record is its digest;
    an object whose [digest] property holds no string has no key in the
    store. *)
Definition as_key (v : JsVal) : option string :=
  match v with
  | VStr k => Some k
  | _ => None
  end.

Section Engine.

Variable env : Env.

(** [loader.getRange(start, length, true)]: resolves to the stream or
    rejects with a status-bearing error. *)
Definition call_getRange (l : Loader) (st len : Z) : ST World Stream :=
  fun w =>
    match getRange env l st len w with
    | FetchOk s => (Ok s, emit (EvGetRange l st len) w)
    | FetchFail status => (Throw (FetchError status), emit (EvGetRange l st len) w)
    end.

(** Evaluation of an identifier: a [ReferenceError] when no enclosing scope
    binds it. *)
Definition eval_ident {S} (chain : list Scope) (x : string) : ST S JsVal :=
  match resolve_ident chain x with
  | Some v => st_ret v
  | None => st_throw (ReferenceError x)
  end.

(** Lines 39-48: the loader that serves [source]. [const headers] and
    [const url] are local to the block of the [else] branch. *)
Definition loader_for (this : RemoteArchiveDB) (src : Source) : Loader :=
  match loader this with
  | Some l => l
  | None =>
      let headers := new_Headers (headers this) in
      let url := resolveURL env (src_path src) (remoteUrlPrefix this) in
      createLoader url headers
  end.

(** [async loadSource(source)], lines 36-59.

    The [catch] clause sees its parameter, the function's own bindings
    ([source], [start], [length], [loader]), the module's and the global
    object's. *)
Definition loadSource (this : RemoteArchiveDB) (src : Source) : ST World (option Stream) :=
  let start := src_start src in
  let length := src_length src in
  let functionScope : Scope :=
    [ ("source", VObj "source"); ("start", VNum start); ("length", VNum length);
      ("loader", VObj "loader") ] in
  let loader := loader_for this src in
  try_catch
    (s <- call_getRange loader start length ;; st_ret (Some s))
    (fun e =>
       let catchChain := [ [("e", VObj "error")]; functionScope; moduleScope;
                           globalScope env ] in
       if is_auth_status (status_of e) then
         v <- eval_ident catchChain "url" ;;
         st_throw (AuthNeeded v)
       else
         st_ret None).

(** A store operation that the environment makes fail throws. *)
Definition guard_op (op : StoreOp) : ST World unit :=
  fun w => if fails env op w then (Throw (StoreFailure op), w) else (Ok tt, w).

(** [tx.objectStore("payload").put({payload, digest})], line 178: an
    upsert under the key taken from the [digest] property; without a key the
    call throws. *)
Definition payload_put (payload digest : JsVal) : ST World unit :=
  st_modify (emit (EvPayloadPut payload digest)) ;;
  match as_key digest with
  | None => st_throw (DataError "payload")
  | Some k =>
      guard_op PayloadPut ;;
      st_modify (fun w => with_payloadStore (<[k := payload]> (payloadStore w)) w)
  end.

(** [tx.objectStore("digestRef").get(digest)], line 181. *)
Definition ref_get (digest : JsVal) : ST World (option (string * DigestRef)) :=
  match as_key digest with
  | None => st_throw (DataError "digestRef")
  | Some k =>
      guard_op RefGet ;;
      w <- st_get ;;
      st_ret (match digestRefStore w !! k with
              | Some r => Some (k, r)
              | None => None
              end)
  end.

(** [tx.objectStore("digestRef").put(ref)], line 184. *)
Definition ref_put (k : string) (r : DigestRef) : ST World unit :=
  st_modify (emit (EvRefPut k r)) ;;
  guard_op RefPut ;;
  st_modify (fun w => with_digestRefStore (<[k := r]> (digestRefStore w)) w).

(** [await tx.done], line 188: when the transaction fails it aborts, and
    its two stores are as they were when it was opened (line 173). *)
Definition payload_tx_done (opened : World) : ST World unit :=
  fun w =>
    if fails env PayloadTxDone w then
      (Throw (StoreFailure PayloadTxDone),
       with_digestRefStore (digestRefStore opened)
         (with_payloadStore (payloadStore opened) w))
    else (Ok tt, w).

(** [async commitPayload(payload, digest)], lines 168-193. The parameters
    are whatever the caller passes, in order. *)
Definition commitPayload (this : RemoteArchiveDB) (payload digest : JsVal) : ST World unit :=
  if negb (truthy payload) then st_ret tt
  else
    tx <- st_get ;;
    try_catch
      (payload_put payload digest ;;
       (if useRefCounts this then
          ref <- ref_get digest ;;
          match ref with
          | Some (k, r) => ref_put k (mkDigestRef (ref_count r) (js_length payload))
          | None => st_ret tt
          end
        else st_ret tt) ;;
       payload_tx_done tx)
      (fun e => console_warn (MPayloadCommitError e)).

(** Key of a catalog entry in the "resources" store. *)
Definition cdx_key (c : Cdx) : string * Z := (url c, ts c).

(** [this.db.put("resources", cdx)], line 115. *)
Definition db_put_resources (c : Cdx) : ST World unit :=
  st_modify (emit (EvResourcesPut c)) ;;
  guard_op ResourcesDbPut ;;
  st_modify (fun w => with_resourcesStore (<[cdx_key c := c]> (resourcesStore w)) w).

(** [tx.store.put(cdx)], line 153. *)
Definition tx_store_put (c : Cdx) : ST World unit :=
  st_modify (emit (EvResourcesPut c)) ;;
  guard_op ResourcesPut ;;
  st_modify (fun w => with_resourcesStore (<[cdx_key c := c]> (resourcesStore w)) w).

(** [await tx.done], line 154: when the transaction fails, the catalog is
    as it was when it was opened (line 141). *)
Definition resources_tx_done (opened : World) : ST World unit :=
  fun w =>
    if fails env ResourcesTxDone w then
      (Throw (StoreFailure ResourcesTxDone),
       with_resourcesStore (resourcesStore opened) w)
    else (Ok tt, w).

End Engine.

(* ===================================================================== *)
(** * The stream readers                                                   *)
(* ===================================================================== *)

(** What [PayloadBufferingReader] uses of the reader it wraps: its async
    iteration, its [limit] property and its [setLimitSkip] method.
    [rd_pull] is one [next()] of the iteration, [None] when it is done. *)
Class AsyncIterReader (R : Type) := {
  rd_pull : R -> R * option Bytes;
  rd_limit : R -> option Z;
  rd_setLimitSkip : Z -> Z -> R -> R
}.

(** Modelled from the spec: [BaseAsyncIterReader.concatChunks] belongs to the
    warcio package; it "concatenates buffered chunks into one contiguous
    buffer" ([size] is the length it allocates). *)
Definition concatChunks (chunks : list Bytes) (size : Z) : Bytes := concat chunks.

(** [chunk.byteLength] *)
Definition byteLength (chunk : Bytes) : Z := Z.of_nat (List.length chunk).

(** [this.reader.limit !== 0] *)
Definition limit_not_zero (l : option Z) : bool :=
  match l with
  | Some z => negb (Z.eqb z 0)
  | None => true
  end.

(** Where the body of an async generator stands: not started, suspended at
    the [yield] of line 232, or finished. *)
Inductive GenPos : Type :=
| GenStart
| GenSuspended
| GenDone.

Inductive IterResult : Type :=
| Yield (chunk : Bytes)
| Done.

Section Readers.

Context {R : Type} `{AsyncIterReader R}.

(** class PayloadBufferingReader, lines 198-252. [pb_db] is the
    [RemoteArchiveDB] that made the reader. *)
Record PayloadBufferingReader := mkPBR {
  pb_db : RemoteArchiveDB;
  pb_reader : R;
  pb_digest : option string;
  pb_url : string;
  pb_chunks : list Bytes;
  pb_size : Z;
  pb_fullbuff : option Bytes;
  pb_commit : bool;
  pb_alreadyRead : bool
}.

(** [constructor(db, reader, digest, url = "")] *)
Definition PayloadBufferingReader_new (db : RemoteArchiveDB) (reader : R)
    (dg : option string) (u : string) : PayloadBufferingReader :=
  mkPBR db reader dg u [] 0 None true false.

Definition set_reader (r : R) (p : PayloadBufferingReader) :=
  mkPBR (pb_db p) r (pb_digest p) (pb_url p) (pb_chunks p) (pb_size p)
    (pb_fullbuff p) (pb_commit p) (pb_alreadyRead p).
Definition set_chunks (cs : list Bytes) (p : PayloadBufferingReader) :=
  mkPBR (pb_db p) (pb_reader p) (pb_digest p) (pb_url p) cs (pb_size p)
    (pb_fullbuff p) (pb_commit p) (pb_alreadyRead p).
Definition set_size (n : Z) (p : PayloadBufferingReader) :=
  mkPBR (pb_db p) (pb_reader p) (pb_digest p) (pb_url p) (pb_chunks p) n
    (pb_fullbuff p) (pb_commit p) (pb_alreadyRead p).
Definition set_fullbuff (b : option Bytes) (p : PayloadBufferingReader) :=
  mkPBR (pb_db p) (pb_reader p) (pb_digest p) (pb_url p) (pb_chunks p) (pb_size p)
    b (pb_commit p) (pb_alreadyRead p).
Definition set_commit (c : bool) (p : PayloadBufferingReader) :=
  mkPBR (pb_db p) (pb_reader p) (pb_digest p) (pb_url p) (pb_chunks p) (pb_size p)
    (pb_fullbuff p) c (pb_alreadyRead p).
Definition set_alreadyRead (a : bool) (p : PayloadBufferingReader) :=
  mkPBR (pb_db p) (pb_reader p) (pb_digest p) (pb_url p) (pb_chunks p) (pb_size p)
    (pb_fullbuff p) (pb_commit p) a.

(** [setLimitSkip(limit = -1, skip = 0)], lines 216-221. *)
Definition setLimitSkip (olimit oskip : option Z)
  : ST (PayloadBufferingReader * World) unit :=
  let limit := default (-1) olimit in
  let skip := default 0 oskip in
  (if negb (Z.eqb limit (-1)) && Z.ltb 0 skip
   then modify_obj (set_commit false)
   else st_ret tt) ;;
  modify_obj (fun p => set_reader (rd_setLimitSkip limit skip (pb_reader p)) p).

Variable env : Env.

(** Lines 235-245: what the generator does once the wrapped reader is
    exhausted. *)
Definition iter_finish : ST (PayloadBufferingReader * World) unit :=
  modify_obj (fun p => set_fullbuff (Some (concatChunks (pb_chunks p) (pb_size p))) p) ;;
  this <- get_obj ;;
  (if limit_not_zero (rd_limit (pb_reader this)) then
     liftW (console_warn (MNotConsumed (rd_limit (pb_reader this))))
   else if pb_commit this then
     liftW (commitPayload env (pb_db this)
              (match pb_fullbuff this with Some b => VBytes b | None => VUndef end)
              (of_ostr (pb_digest this)))
   else st_ret tt) ;;
  modify_obj (set_chunks []) ;;
  modify_obj (set_alreadyRead true).

(** Lines 228-233: one turn of the [for await] loop over [this.reader],
    up to the next [yield] or to the end of the generator. *)
Definition iter_loop : ST (PayloadBufferingReader * World) (GenPos * IterResult) :=
  this <- get_obj ;;
  let (r', item) := rd_pull (pb_reader this) in
  modify_obj (set_reader r') ;;
  match item with
  | Some chunk =>
      modify_obj (fun p => set_chunks (pb_chunks p ++ [chunk]) p) ;;
      modify_obj (fun p => set_size (pb_size p + byteLength chunk) p) ;;
      st_ret (GenSuspended, Yield chunk)
  | None =>
      iter_finish ;;
      st_ret (GenDone, Done)
  end.

(** [next()] on a generator made by [async* [Symbol.asyncIterator]()],
    lines 223-246. *)
Definition gen_next (pos : GenPos)
  : ST (PayloadBufferingReader * World) (GenPos * IterResult) :=
  match pos with
  | GenStart =>
      this <- get_obj ;;
      if pb_alreadyRead this then st_ret (GenDone, Done) else iter_loop
  | GenSuspended => iter_loop
  | GenDone => st_ret (GenDone, Done)
  end.

(** A consumer's [for await (const chunk of ...)] over a generator standing
    at [pos], for at most [fuel] calls of [next()]: the chunks it was
    given, and where the generator stands afterwards. *)
Fixpoint consume (fuel : nat) (pos : GenPos)
  : ST (PayloadBufferingReader * World) (list Bytes * GenPos) :=
  match fuel with
  | O => st_ret ([], pos)
  | S fuel' =>
      step <- gen_next pos ;;
      match step with
      | (pos', Yield chunk) =>
          rest <- consume fuel' pos' ;;
          st_ret (chunk :: fst rest, snd rest)
      | (pos', Done) => st_ret ([], pos')
      end
  end.

(** [async readFully()], lines 248-251; [None] while the loop of line 249
    has not ended within [fuel] turns. *)
Definition readFully (fuel : nat)
  : ST (PayloadBufferingReader * World) (option (option Bytes)) :=
  r <- consume fuel GenStart ;;
  this <- get_obj ;;
  match snd r with
  | GenDone => st_ret (Some (pb_fullbuff this))
  | _ => st_ret None
  end.

(** What a holder of the reader can do with it. Each [CallIterator] makes
    a new generator object; [CallNext g] advances the [g]-th one. *)
Inductive Action : Type :=
| CallSetLimitSkip (limit skip : option Z)
| CallIterator
| CallNext (g : nat).

Definition do_action (a : Action) (gens : list GenPos)
  : ST (PayloadBufferingReader * World) (list GenPos * list Bytes) :=
  match a with
  | CallSetLimitSkip l s => setLimitSkip l s ;; st_ret (gens, [])
  | CallIterator => st_ret (gens ++ [GenStart], [])
  | CallNext g =>
      match gens !! g with
      | None => st_ret (gens, [])
      | Some pos =>
          step <- gen_next pos ;;
          match step with
          | (pos', Yield chunk) => st_ret (<[g := pos']> gens, [chunk])
          | (pos', Done) => st_ret (<[g := pos']> gens, [])
          end
      end
  end.

Fixpoint run_actions (acts : list Action) (gens : list GenPos)
  : ST (PayloadBufferingReader * World) (list GenPos * list Bytes) :=
  match acts with
  | [] => st_ret (gens, [])
  | a :: rest =>
      r1 <- do_action a gens ;;
      r2 <- run_actions rest (fst r1) ;;
      st_ret (fst r2, snd r1 ++ snd r2)
  end.

End Readers.

Arguments PayloadBufferingReader R : clear implicits.

(* ===================================================================== *)
(** * loadPayload                                                          *)
(* ===================================================================== *)

(** The entry that [SingleRecordWARCLoader(...).load()] makes of the one
    record in the fetched bytes. *)
Record Remote (R : Type) := mkRemote {
  r_url : string;
  r_ts : Z;
  r_digest : option string;
  r_respHeaders : option Headers;
  r_extraOpts : option ExtraOpts;
  r_payload : option Bytes;
  r_reader : option R;
  r_origURL : option string;
  r_origTS : option Z
}.
Arguments mkRemote {R}.
Arguments r_url {R}.
Arguments r_ts {R}.
Arguments r_digest {R}.
Arguments r_respHeaders {R}.
Arguments r_extraOpts {R}.
Arguments r_payload {R}.
Arguments r_reader {R}.
Arguments r_origURL {R}.
Arguments r_origTS {R}.

(** What [loadPayload] resolves to: [null], payload bytes, or a reader (the
    record's own when it has no digest, else the buffering one around it). *)
Inductive Result (R : Type) : Type :=
| RNull
| RPayload (b : Bytes)
| RBuffering (p : PayloadBufferingReader R)
| RReader (r : R).
Arguments RNull {R}.
Arguments RPayload {R}.
Arguments RBuffering {R}.
Arguments RReader {R}.

Definition truthyR {R} (r : Result R) : bool :=
  match r with
  | RNull => false
  | _ => true
  end.

Definition of_payload {R} (o : option Bytes) : Result R :=
  match o with
  | Some b => RPayload b
  | None => RNull
  end.

Definition REVISIT : string := "warc/revisit".

Section Resolution.

Context {R : Type} `{AsyncIterReader R}.

Variable env : Env.

(** [new SingleRecordWARCLoader(responseStream).load()]; the argument is
    [None] when [loadSource] gave [null]. *)
Variable parse : option Stream -> option (Remote R).

(** Lines 93-118: the record is a revisit of [(origURL, origTS)].
    [payload] is what line 62 found; [self] is the method itself, called at
    line 101 on the entry [origResult], which it may mutate. *)
Definition follow_revisit
    (self : nat -> ST (Cdx * World) (Result R))
    (depth : nat) (remote : Remote R) (payload : Result R)
  : ST (Cdx * World) (Result R) :=
  origResult <- liftW (fun w =>
    (Ok (lookupUrl env (default "" (r_origURL remote)) (r_origTS remote) w), w)) ;;
  match origResult with
  | None => st_ret RNull
  | Some origResult =>
      let update (payload : Result R) (origResult : Cdx) :=
        modify_obj (set_respHeaders (respHeaders origResult)) ;;
        modify_obj (set_mime (mime origResult)) ;;
        modify_obj delete_payload ;;
        cdx <- get_obj ;;
        liftW (db_put_resources env cdx) ;;
        st_ret payload in
      if negb (truthyR payload) then
        r <- (if Nat.ltb depth 2 then
                with_object origResult (self (depth + 1)%nat)
              else
                liftW (console_warn (MRevisitLoop (r_url remote))) ;;
                st_ret (payload, origResult)) ;;
        if negb (truthyR (fst r)) then st_ret RNull
        else update (fst r) (snd r)
      else update payload origResult
  end.

(** Line 130-132: the record's reader, wrapped when there is a digest. *)
Definition wrap_reader (this : RemoteArchiveDB) (remote : Remote R) (u : string)
  : option (Result R) :=
  match r_reader remote with
  | Some rd =>
      if truthy_str (r_digest remote)
      then Some (RBuffering (PayloadBufferingReader_new this rd (r_digest remote) u))
      else Some (RReader rd)
  | None => None
  end.

(** Lines 128-165: the record carries the payload itself. *)
Definition accept_record (this : RemoteArchiveDB) (remote : Remote R)
  : ST (Cdx * World) (Result R) :=
  cdx <- get_obj ;;
  let digest := r_digest remote in
  let reader := wrap_reader this remote (url cdx) in
  let payload := r_payload remote in
  if negb (present payload) && negb (present reader)
  then st_ret RNull
  else
    try_catch
      (tx <- liftW st_get ;;
       (if present payload
        then liftW (commitPayload env this (of_ostr digest) VUndef)
        else st_ret tt) ;;
       modify_obj (set_respHeaders (r_respHeaders remote)) ;;
       modify_obj (set_digest digest) ;;
       (if present (r_extraOpts remote)
        then modify_obj (set_extraOpts (r_extraOpts remote))
        else st_ret tt) ;;
       cdx <- get_obj ;;
       liftW (tx_store_put env cdx) ;;
       liftW (resources_tx_done env tx))
      (fun e =>
         cdx <- get_obj ;;
         liftW (console_warn (MResourceUpdateError (url cdx))) ;;
         liftW (console_warn (MExn e))) ;;
    match payload with
    | Some b => st_ret (RPayload b)
    | None => st_ret (default RNull reader)
    end.

(** The body of [async loadPayload(cdx, depth = 0)], lines 61-166, with
    [self] for the method it calls at line 101. The state is the [cdx]
    object and the world. *)
Definition loadPayload_body
    (self : nat -> ST (Cdx * World) (Result R))
    (this : RemoteArchiveDB) (depth : nat) : ST (Cdx * World) (Result R) :=
  cdx <- get_obj ;;
  payload <- liftW (fun w => (Ok (of_payload (super_loadPayload env cdx w)), w)) ;;
  if truthyR payload
     && (present (respHeaders cdx) && negb (ostr_eqb (mime cdx) (Some REVISIT)))
  then st_ret payload
  else
    responseStream <- liftW (loadSource env this (source cdx)) ;;
    match parse responseStream with
    | None =>
        liftW (console_log (MNoRecord (url cdx))) ;;
        st_ret RNull
    | Some remote =>
        if negb (String.eqb (r_url remote) (url cdx)) then
          liftW (console_log (MWrongUrl (url cdx) (r_url remote))) ;;
          st_ret RNull
        else if negb (Z.eqb (r_ts remote) (ts cdx)) then
          liftW (console_log (MWrongTs (ts cdx) (r_ts remote))) ;;
          st_ret RNull
        else if negb (ostr_eqb (r_digest remote) (digest cdx)) then
          liftW (console_log (MWrongDigest (digest cdx) (r_digest remote))) ;;
          st_ret RNull
        else if truthy_str (r_origURL remote) then
          follow_revisit self depth remote payload
        else
          accept_record this remote
    end.

(** [loadPayload] unrolled [n] times. *)
Fixpoint loadPayload_upto (n : nat) (this : RemoteArchiveDB)
  : nat -> ST (Cdx * World) (Result R) :=
  match n with
  | O => fun _ => st_ret RNull
  | S n' => loadPayload_body (loadPayload_upto n' this) this
  end.

(** [async loadPayload(cdx, depth = 0)]: a call at [depth] nests at most
    [2 - depth] further calls, so [3 - depth] unrollings (one at least) are
    all of it; [loadPayload_unfold] below is the method's own equation. *)
Definition loadPayload (this : RemoteArchiveDB) (depth : nat)
  : ST (Cdx * World) (Result R) :=
  loadPayload_upto (S (2 - depth)%nat) this depth.

End Resolution.

(* ===================================================================== *)
(** * Observations                                                         *)
(* ===================================================================== *)

Definition is_fetch (e : Event) : bool :=
  match e with
  | EvGetRange _ _ _ => true
  | _ => false
  end.

(** Number of byte-range fetches issued so far. *)
Definition fetch_count (w : World) : nat :=
  List.length (List.filter is_fetch (trace w)).

(** The [put]s on the "payload" store so far, most recent first, each with
    the [payload] and [digest] properties of the object put. *)
Fixpoint payload_puts (t : list Event) : list (JsVal * JsVal) :=
  match t with
  | [] => []
  | EvPayloadPut p d :: rest => (p, d) :: payload_puts rest
  | _ :: rest => payload_puts rest
  end.


(** Lines 62-67: the entry is served from what is stored locally. *)
Definition resolved_locally (env : Env) (cdx : Cdx) (w : World) : bool :=
  present (super_loadPayload env cdx w)
  && (present (respHeaders cdx) && negb (ostr_eqb (mime cdx) (Some REVISIT))).

(** The record's url, ts and digest are those of the entry (lines 78-91). *)
Definition record_matches {R} (remote : Remote R) (cdx : Cdx) : bool :=
  String.eqb (r_url remote) (url cdx)
  && Z.eqb (r_ts remote) (ts cdx)
  && ostr_eqb (r_digest remote) (digest cdx).

(** The line that lines 78-91 log for a record that does not match. *)
Definition mismatch_msg {R} (remote : Remote R) (cdx : Cdx) : Msg :=
  if negb (String.eqb (r_url remote) (url cdx)) then MWrongUrl (url cdx) (r_url remote)
  else if negb (Z.eqb (r_ts remote) (ts cdx)) then MWrongTs (ts cdx) (r_ts remote)
  else MWrongDigest (digest cdx) (r_digest remote).

(** The entry as lines 147-151 leave it. *)
Definition accepted_cdx {R} (remote : Remote R) (cdx : Cdx) : Cdx :=
  let c := set_digest (r_digest remote) (set_respHeaders (r_respHeaders remote) cdx) in
  if present (r_extraOpts remote) then set_extraOpts (r_extraOpts remote) c else c.

(** What lines 161-165 return. *)
Definition accepted_result {R} `{AsyncIterReader R} (this : RemoteArchiveDB)
    (remote : Remote R) (cdx : Cdx) : Result R :=
  match r_payload remote with
  | Some b => RPayload b
  | None => default RNull (wrap_reader this remote (url cdx))
  end.

(** The entry as lines 110-113 leave it. *)
Definition revisit_cdx (origResult : Cdx) (cdx : Cdx) : Cdx :=
  delete_payload (set_mime (mime origResult) (set_respHeaders (respHeaders origResult) cdx)).

(** The entry [a] is a revisit of the entry [b]: with the "payload" store
    as it is in [w0] nothing is found locally for [a], the record fetched
    for [a] is [ra], it matches [a], and the capture it names is found in
    the catalog as [b]. *)
Definition revisits {R} (env : Env) (parse : option Stream -> option (Remote R))
    (this : RemoteArchiveDB) (w0 : World) (a b : Cdx) (ra : Remote R) : Prop :=
  (forall w, payloadStore w = payloadStore w0 -> super_loadPayload env a w = None)
  /\ (forall w, exists s,
        getRange env (loader_for env this (source a))
          (src_start (source a)) (src_length (source a)) w = FetchOk s
        /\ parse (Some s) = Some ra)
  /\ record_matches ra a = true
  /\ truthy_str (r_origURL ra) = true
  /\ (forall w, lookupUrl env (default "" (r_origURL ra)) (r_origTS ra) w = Some b).

(** The fetch that [loadSource] issues for an entry. *)
Definition fetch_event (env : Env) (this : RemoteArchiveDB) (c : Cdx) : Event :=
  EvGetRange (loader_for env this (source c)) (src_start (source c)) (src_length (source c)).

(** [n] successive [next()] on a wrapped reader: the reader afterwards and
    the items it gave, in order. *)
Fixpoint pulls {R} `{AsyncIterReader R} (n : nat) (r : R) : R * list (option Bytes) :=
  match n with
  | O => (r, [])
  | S n' =>
      let (r', item) := rd_pull r in
      let (r'', items) := pulls n' r' in
      (r'', item :: items)
  end.

(** The reader object after line 229-230 buffered [chunk]. *)
Definition buffered {R} (chunk : Bytes) (p : PayloadBufferingReader R)
  : PayloadBufferingReader R :=
  set_size (pb_size p + byteLength chunk) (set_chunks (pb_chunks p ++ [chunk]) p).

(** The reader object after lines 235-245. *)
Definition finished {R} (p : PayloadBufferingReader R) : PayloadBufferingReader R :=
  set_alreadyRead true
    (set_chunks [] (set_fullbuff (Some (concatChunks (pb_chunks p) (pb_size p))) p)).

(** What lines 238-242 do to the world, [buf] being the full buffer. *)
Definition finish_world {R} `{AsyncIterReader R} (env : Env)
    (p : PayloadBufferingReader R) (buf : Bytes) (w : World) : World :=
  if limit_not_zero (rd_limit (pb_reader p)) then
    emit (EvWarn (MNotConsumed (rd_limit (pb_reader p)))) w
  else if pb_commit p then
    snd (commitPayload env (pb_db p) (VBytes buf) (of_ostr (pb_digest p)) w)
  else w.

(** A generator that is not in the middle of its loop. *)
Definition not_suspended (g : GenPos) : bool :=
  match g with
  | GenSuspended => false
  | _ => true
  end.

(* ===================================================================== *)
(** * A concrete reader and concrete collaborators, for the examples       *)
(* ===================================================================== *)

Module Sample.

(** A reader over the chunks still to come; [cr_limit] counts down the
    bytes it was told to expect. *)
Record ChunkReader := mkChunkReader {
  cr_chunks : list Bytes;
  cr_limit : option Z;
  cr_skip : Z
}.

#[export] Instance ChunkReader_reader : AsyncIterReader ChunkReader := {
  rd_pull r :=
    match cr_chunks r with
    | [] => (r, None)
    | c :: rest =>
        (mkChunkReader rest (option_map (fun l => l - byteLength c) (cr_limit r))
           (cr_skip r), Some c)
    end;
  rd_limit := cr_limit;
  rd_setLimitSkip limit skip r := mkChunkReader (cr_chunks r) (Some limit) skip
}.

Definition hello : Bytes := [x68; x65; x6c; x6c; x6f].
Definition world : Bytes := [x77; x6f; x72; x6c; x64].

Definition empty_world : World := mkWorld ∅ ∅ ∅ [].

(** Collaborators given by tables: what each loader url serves, what the
    catalog holds, which store operations fail. *)
Definition table_env (served : string -> FetchOutcome)
    (catalog : string -> option Cdx) (failing : StoreOp -> bool) : Env :=
  mkEnv (fun l _ _ _ => served (loader_url l))
        (fun p base => default "" base ++ p)%string
        (fun c w => match digest c with
                    | Some d =>
                        match payloadStore w !! d with
                        | Some (VBytes b) => Some b
                        | _ => None
                        end
                    | None => None
                    end)
        (fun u _ _ => catalog u)
        (fun op _ => failing op)
        [].

Definition no_failure (op : StoreOp) : bool := false.

Definition db : RemoteArchiveDB :=
  RemoteArchiveDB_new "coll" (IsString "http://archive/") None.

Definition db_with_loader : RemoteArchiveDB :=
  RemoteArchiveDB_new "coll" (IsLoader (mkLoader "http://archive/1.warc" [])) None.

(** The entry of the specification's examples. *)
Definition entry : Cdx :=
  mkCdx "http://x/a" 20200101 (Some "sha1:ABC") None None
    (mkSource "1.warc" 0 500) None None.

Definition record_headers : Headers := [("content-type", "text/plain")].

(** A record for [entry] with a small inline payload. *)
Definition inline_record : Remote ChunkReader :=
  mkRemote "http://x/a" 20200101 (Some "sha1:ABC") (Some record_headers) None
    (Some hello) None None None.

(** A record for [entry] whose payload is still to be streamed. *)
Definition streaming_record : Remote ChunkReader :=
  mkRemote "http://x/a" 20200101 (Some "sha1:ABC") (Some record_headers) None
    None (Some (mkChunkReader [hello; world] (Some 10) 0)) None None.

(** The same capture under another digest. *)
Definition other_digest_record : Remote ChunkReader :=
  mkRemote "http://x/a" 20200101 (Some "sha1:XYZ") (Some record_headers) None
    (Some hello) None None None.

Definition serve_1warc (u : string) : FetchOutcome :=
  if String.eqb u "http://archive/1.warc" then FetchOk [x01] else FetchFail (Some 404).

Definition parse_as (r : Remote ChunkReader) (s : option Stream)
  : option (Remote ChunkReader) :=
  match s with
  | Some _ => Some r
  | None => None
  end.

(** Two revisit entries that name each other. *)
Definition entryA : Cdx :=
  mkCdx "http://x/a" 20200101 (Some "sha1:ABC") (Some REVISIT) None
    (mkSource "a.warc" 0 300) None None.
Definition entryB : Cdx :=
  mkCdx "http://x/b" 20190101 (Some "sha1:ABC") (Some REVISIT) None
    (mkSource "b.warc" 0 300) None None.
Definition revisitA : Remote ChunkReader :=
  mkRemote "http://x/a" 20200101 (Some "sha1:ABC") None None None None
    (Some "http://x/b") (Some 20190101).
Definition revisitB : Remote ChunkReader :=
  mkRemote "http://x/b" 20190101 (Some "sha1:ABC") None None None None
    (Some "http://x/a") (Some 20200101).

Definition serve_cycle (u : string) : FetchOutcome :=
  if String.eqb u "http://archive/a.warc" then FetchOk [x0a]
  else if String.eqb u "http://archive/b.warc" then FetchOk [x0b]
  else FetchFail (Some 404).

Definition parse_cycle (s : option Stream) : option (Remote ChunkReader) :=
  match s with
  | Some [x0a] => Some revisitA
  | Some [x0b] => Some revisitB
  | _ => None
  end.

Definition catalog_cycle (u : string) : option Cdx :=
  if String.eqb u "http://x/a" then Some entryA
  else if String.eqb u "http://x/b" then Some entryB
  else None.

(** [entryA] revisits an original [entryO] whose record has an inline
    payload. *)
Definition entryO : Cdx :=
  mkCdx "http://x/o" 20180101 (Some "sha1:ABC") None None
    (mkSource "o.warc" 0 300) None None.
Definition revisitO : Remote ChunkReader :=
  mkRemote "http://x/a" 20200101 (Some "sha1:ABC") None None None None
    (Some "http://x/o") (Some 20180101).
Definition recordO : Remote ChunkReader :=
  mkRemote "http://x/o" 20180101 (Some "sha1:ABC") (Some record_headers) None
    (Some hello) None None None.

Definition serve_revisit (u : string) : FetchOutcome :=
  if String.eqb u "http://archive/a.warc" then FetchOk [x0a]
  else if String.eqb u "http://archive/o.warc" then FetchOk [x00]
  else FetchFail (Some 404).

Definition parse_revisit (s : option Stream) : option (Remote ChunkReader) :=
  match s with
  | Some [x0a] => Some revisitO
  | Some [x00] => Some recordO
  | _ => None
  end.

Definition catalog_revisit (u : string) : option Cdx :=
  if String.eqb u "http://x/o" then Some entryO else None.

Definition env_plain : Env := table_env serve_1warc (fun _ => None) no_failure.
Definition env_status (st : Z) : Env :=
  table_env (fun _ => FetchFail (Some st)) (fun _ => None) no_failure.
Definition env_cycle : Env := table_env serve_cycle catalog_cycle no_failure.
Definition env_revisit : Env := table_env serve_revisit catalog_revisit no_failure.

(** The [put] of line 115 fails; every other store operation succeeds. *)
Definition put_115_fails (op : StoreOp) : bool :=
  match op with
  | ResourcesDbPut => true
  | _ => false
  end.
Definition env_revisit_failing : Env :=
  table_env serve_revisit catalog_revisit put_115_fails.

(** The world after the fetch of [entry]'s record. *)
Definition fetched_world : World := emit (fetch_event env_plain db entry) empty_world.

(** Ten bytes in two chunks, all expected; and the same with ten more
    expected that never come. *)
Definition reader_whole : ChunkReader := mkChunkReader [hello; world] (Some 10) 0.
Definition reader_short : ChunkReader := mkChunkReader [hello; world] (Some 20) 0.

Definition buffering (r : ChunkReader) : PayloadBufferingReader ChunkReader :=
  PayloadBufferingReader_new db r (Some "sha1:ABC") "http://x/a".

(** Resolving [entry] when its record carries the payload inline. *)
Definition inline_run : Outcome (Result ChunkReader) * (Cdx * World) :=
  loadPayload env_plain (parse_as inline_record) db 0 (entry, empty_world).

(** A consumer reading all of a buffering reader. *)
Definition whole_run
  : Outcome (list Bytes * GenPos) * (PayloadBufferingReader ChunkReader * World) :=
  consume env_plain 3 GenStart (buffering reader_whole, empty_world).
Definition short_run
  : Outcome (list Bytes * GenPos) * (PayloadBufferingReader ChunkReader * World) :=
  consume env_plain 3 GenStart (buffering reader_short, empty_world).

(** A database that keeps reference counts, and a world where the digest
    of [entry] has a row. *)
Definition db_counting : RemoteArchiveDB :=
  mkRemoteArchiveDB "coll" (Some "http://archive/") None None true.
Definition world_with_ref : World :=
  mkWorld ∅ {["sha1:ABC" := mkDigestRef 2 None]} ∅ [].

(** [entry] once resolved, and a world where its payload is stored. *)
Definition entry_resolved : Cdx :=
  mkCdx "http://x/a" 20200101 (Some "sha1:ABC") (Some "text/plain") (Some record_headers)
    (mkSource "1.warc" 0 500) None None.
Definition world_with_payload : World :=
  mkWorld {["sha1:ABC" := VBytes hello]} ∅ ∅ [].


(** A record for [entry] with neither payload nor reader. *)
Definition bare_record : Remote ChunkReader :=
  mkRemote "http://x/a" 20200101 (Some "sha1:ABC") (Some record_headers) None
    None None None None.

(** The world after one commit of [hello] under the digest of [entry]. *)
Definition once_world : World :=
  snd (commitPayload env_plain db (VBytes hello) (VStr "sha1:ABC") empty_world).

(** Resolving the revisit [entryA] through [entryO]: the world after the
    fetch of [entryA]'s record, and the nested call. *)
Definition revisit_fetched_world : World :=
  emit (fetch_event env_revisit db entryA) empty_world.
Definition nested_run : Outcome (Result ChunkReader) * (Cdx * World) :=
  loadPayload env_revisit parse_revisit db 1 (entryO, revisit_fetched_world).

(** A consumer that takes one chunk of [reader_whole] and stops. *)
Definition first_chunk_run
  : Outcome (list Bytes * GenPos) * (PayloadBufferingReader ChunkReader * World) :=
  consume env_plain 1 GenStart (buffering reader_whole, empty_world).

(** [readFully] on a new reader over [reader_whole]. *)
Definition read_run
  : Outcome (option (option Bytes)) * (PayloadBufferingReader ChunkReader * World) :=
  readFully env_plain 3 (buffering reader_whole, empty_world).

End Sample.

(* ===================================================================== *)
(** * Basic facts                                                          *)
(* ===================================================================== *)

Ltac st_unfold :=
  unfold st_bind, st_ret, st_throw, try_catch, st_get, st_modify, liftW,
    get_obj, modify_obj, with_object, console_log, console_warn, guard_op in *.

Lemma ostr_eqb_eq (a b : option string) : ostr_eqb a b = true <-> a = b.
Proof.
  destruct a as [x|], b as [y|]; simpl; split; intros E; try congruence.
  - apply String.eqb_eq in E. congruence.
  - apply String.eqb_eq. congruence.
Qed.

Lemma ostr_eqb_refl (a : option string) : ostr_eqb a a = true.
Proof. now apply ostr_eqb_eq. Qed.

Lemma truthyR_of_payload {R} (o : option Bytes) :
  truthyR (@of_payload R o) = present o.
Proof. now destruct o. Qed.

Lemma record_matches_eq {R} (remote : Remote R) (cdx : Cdx) :
  record_matches remote cdx = true <->
  r_url remote = url cdx /\ r_ts remote = ts cdx /\ r_digest remote = digest cdx.
Proof.
  unfold record_matches. rewrite !andb_true_iff, String.eqb_eq, Z.eqb_eq, ostr_eqb_eq.
  tauto.
Qed.

Section EngineFacts.

Variable env : Env.

(** [loadSource] in one equation: one fetch, then the stream, [null], or
    whatever evaluating [url] in the [catch] clause gives. *)
Lemma loadSource_eq (this : RemoteArchiveDB) (src : Source) (w : World) :
  loadSource env this src w =
  let l := loader_for env this src in
  let w' := emit (EvGetRange l (src_start src) (src_length src)) w in
  match getRange env l (src_start src) (src_length src) w with
  | FetchOk s => (Ok (Some s), w')
  | FetchFail st =>
      if is_auth_status st then
        match scope_get (globalScope env) "url" with
        | Some v => (Throw (AuthNeeded v), w')
        | None => (Throw (ReferenceError "url"), w')
        end
      else (Ok None, w')
  end.
Proof.
  unfold loadSource, call_getRange, eval_ident. st_unfold. simpl.
  destruct (getRange env _ _ _ w) as [s|st]; simpl; [reflexivity|].
  destruct (is_auth_status st); [|reflexivity].
  destruct (scope_get (globalScope env) "url"); reflexivity.
Qed.

(** A fetch that succeeds or fails for another reason than 401/403 never
    throws, and [loadSource] touches no store. *)
Lemma loadSource_world (this : RemoteArchiveDB) (src : Source) (w : World) r w' :
  loadSource env this src w = (r, w') ->
  w' = emit (EvGetRange (loader_for env this src) (src_start src) (src_length src)) w.
Proof.
  rewrite loadSource_eq. cbv zeta.
  destruct (getRange env _ _ _ w) as [s|st]; [congruence|].
  destruct (is_auth_status st); [|congruence].
  destruct (scope_get (globalScope env) "url"); congruence.
Qed.

Lemma loadSource_other_failure (this : RemoteArchiveDB) (src : Source) (w : World) st :
  getRange env (loader_for env this src) (src_start src) (src_length src) w
    = FetchFail st ->
  is_auth_status st = false ->
  loadSource env this src w =
    (Ok None, emit (EvGetRange (loader_for env this src) (src_start src) (src_length src)) w).
Proof. intros E A. rewrite loadSource_eq. cbv zeta. now rewrite E, A. Qed.

(** On 401/403 the value thrown never depends on the url that was fetched:
    it is decided by the global object alone. *)
Lemma loadSource_auth_failure (this : RemoteArchiveDB) (src : Source) (w : World) st :
  getRange env (loader_for env this src) (src_start src) (src_length src) w
    = FetchFail st ->
  is_auth_status st = true ->
  fst (loadSource env this src w) =
    match scope_get (globalScope env) "url" with
    | Some v => Throw (AuthNeeded v)
    | None => Throw (ReferenceError "url")
    end.
Proof.
  intros E A. rewrite loadSource_eq. cbv zeta. rewrite E, A.
  now destruct (scope_get (globalScope env) "url").
Qed.

End EngineFacts.

Section CommitFacts.

Variable env : Env.

Ltac commit_cases :=
  unfold commitPayload, payload_put, ref_get, ref_put, payload_tx_done;
  st_unfold;
  try match goal with E : truthy _ = _ |- _ => rewrite E end;
  simpl;
  repeat (match goal with
          | |- context [match ?x with _ => _ end] =>
              lazymatch x with
              | context [match _ with _ => _ end] => fail
              | _ => destruct x eqn:?
              end
          | |- context [if ?x then _ else _] =>
              lazymatch x with
              | context [if _ then _ else _] => fail
              | _ => destruct x eqn:?
              end
          end; simpl in *; simplify_eq).

(** [commitPayload] never throws. *)
Lemma commitPayload_no_throw (this : RemoteArchiveDB) (payload digest : JsVal) (w : World) :
  fst (commitPayload env this payload digest w) = Ok tt.
Proof. commit_cases; reflexivity. Qed.


(** A falsy [payload] makes it a no-op. *)
Lemma commitPayload_falsy (this : RemoteArchiveDB) (payload digest : JsVal) (w : World) :
  truthy payload = false ->
  commitPayload env this payload digest w = (Ok tt, w).
Proof. intros E. unfold commitPayload. now rewrite E. Qed.

(** Otherwise there is exactly one [put] on the "payload" store, of the
    two arguments as given. *)
Lemma commitPayload_puts (this : RemoteArchiveDB) (payload digest : JsVal) (w : World) :
  truthy payload = true ->
  payload_puts (trace (snd (commitPayload env this payload digest w)))
    = (payload, digest) :: payload_puts (trace w).
Proof. intros E. commit_cases; auto. Qed.

(** Without a string for [digest] the [put] has no key: nothing is stored,
    and the error is logged. *)
Lemma commitPayload_no_key (this : RemoteArchiveDB) (payload digest : JsVal) (w : World) :
  truthy payload = true ->
  as_key digest = None ->
  commitPayload env this payload digest w =
    (Ok tt, emit (EvWarn (MPayloadCommitError (DataError "payload")))
              (emit (EvPayloadPut payload digest) w)).
Proof.
  intros E K. unfold commitPayload, payload_put. st_unfold. simpl.
  now rewrite E, K.
Qed.

(** Whatever fails in the stores, [commitPayload] either has stored the
    payload under the digest or has logged the error. *)
Lemma commitPayload_stored_or_logged (this : RemoteArchiveDB) (payload digest : JsVal)
    (w : World) :
  truthy payload = true ->
  let w' := snd (commitPayload env this payload digest w) in
  (exists k, as_key digest = Some k /\ payloadStore w' !! k = Some payload)
  \/ (exists e rest, trace w' = EvWarn (MPayloadCommitError e) :: rest).
Proof.
  intros E. commit_cases; eauto;
    left; eexists; (split; [reflexivity|]); simpl; apply lookup_insert_eq.
Qed.

(** When no store operation fails, the payload is stored under the digest. *)
Lemma commitPayload_stores (this : RemoteArchiveDB) (payload : JsVal) (k : string)
    (w : World) :
  (forall op w, fails env op w = false) ->
  truthy payload = true ->
  payloadStore (snd (commitPayload env this payload (VStr k) w))
    = <[k := payload]> (payloadStore w).
Proof.
  intros F E. unfold commitPayload, payload_put, ref_get, ref_put, payload_tx_done.
  st_unfold. simpl. rewrite E. simpl. rewrite !F.
  destruct (useRefCounts this); simpl; rewrite ?F; simpl; [|reflexivity].
  destruct (digestRefStore w !! k); simpl; rewrite ?F; simpl; rewrite ?F; reflexivity.
Qed.

End CommitFacts.

Arguments loadSource : simpl never.
Arguments commitPayload : simpl never.
Arguments db_put_resources : simpl never.
Arguments tx_store_put : simpl never.
Arguments resources_tx_done : simpl never.

Section StoreFacts.

Variable env : Env.

Lemma db_put_resources_frame (c : Cdx) (w : World) :
  let w' := snd (db_put_resources env c w) in
  payloadStore w' = payloadStore w
  /\ digestRefStore w' = digestRefStore w
  /\ fetch_count w' = fetch_count w
  /\ payload_puts (trace w') = payload_puts (trace w).
Proof.
  unfold db_put_resources. st_unfold. simpl.
  destruct (fails env ResourcesDbPut _); simpl; auto.
Qed.

Lemma tx_store_put_frame (c : Cdx) (w : World) :
  let w' := snd (tx_store_put env c w) in
  payloadStore w' = payloadStore w
  /\ digestRefStore w' = digestRefStore w
  /\ fetch_count w' = fetch_count w
  /\ payload_puts (trace w') = payload_puts (trace w).
Proof.
  unfold tx_store_put. st_unfold. simpl.
  destruct (fails env ResourcesPut _); simpl; auto.
Qed.

Lemma resources_tx_done_frame (tx w : World) :
  let w' := snd (resources_tx_done env tx w) in
  payloadStore w' = payloadStore w
  /\ digestRefStore w' = digestRefStore w
  /\ trace w' = trace w.
Proof.
  unfold resources_tx_done.
  destruct (fails env ResourcesTxDone w); simpl; auto.
Qed.

End StoreFacts.

Section LoadFacts.

Context {R : Type} `{AsyncIterReader R}.
Variable env : Env.
Variable parse : option Stream -> option (Remote R).

(** The equation of the method: [loadPayload] is its own body, calling
    itself at line 101. *)
Lemma loadPayload_unfold (this : RemoteArchiveDB) (depth : nat) (s : Cdx * World) :
  loadPayload env parse this depth s
  = loadPayload_body env parse (loadPayload env parse this) this depth s.
Proof. destruct depth as [|[|d]]; reflexivity. Qed.

(** Lines 61-91 in one equation. *)
Lemma loadPayload_body_eq self (this : RemoteArchiveDB) (depth : nat) (cdx : Cdx) (w : World) :
  loadPayload_body env parse self this depth (cdx, w) =
  if resolved_locally env cdx w
  then (Ok (of_payload (super_loadPayload env cdx w)), (cdx, w))
  else
    match loadSource env this (source cdx) w with
    | (Throw e, w1) => (Throw e, (cdx, w1))
    | (Ok s, w1) =>
        match parse s with
        | None => (Ok RNull, (cdx, emit (EvLog (MNoRecord (url cdx))) w1))
        | Some remote =>
            if negb (record_matches remote cdx)
            then (Ok RNull, (cdx, emit (EvLog (mismatch_msg remote cdx)) w1))
            else if truthy_str (r_origURL remote)
            then follow_revisit env self depth remote
                   (of_payload (super_loadPayload env cdx w)) (cdx, w1)
            else accept_record env this remote (cdx, w1)
        end
    end.
Proof.
  unfold loadPayload_body, resolved_locally, record_matches, mismatch_msg.
  st_unfold. simpl. rewrite truthyR_of_payload.
  destruct (present (super_loadPayload env cdx w)
            && (present (respHeaders cdx) && negb (ostr_eqb (mime cdx) (Some REVISIT))));
    [reflexivity|].
  destruct (loadSource env this (source cdx) w) as [[s|e] w1]; [|reflexivity].
  destruct (parse s) as [remote|]; [|reflexivity].
  destruct (String.eqb (r_url remote) (url cdx)); simpl; [|reflexivity].
  destruct (Z.eqb (r_ts remote) (ts cdx)); simpl; [|reflexivity].
  destruct (ostr_eqb (r_digest remote) (digest cdx)); simpl; [|reflexivity].
  destruct (truthy_str (r_origURL remote)); reflexivity.
Qed.

(** Lines 128-165 in one equation: the entry is updated in memory and the
    payload or reader returned whatever the stores do; the inline payload
    goes to [commitPayload] as its only argument. *)
Lemma accept_record_eq (this : RemoteArchiveDB) (remote : Remote R) (cdx : Cdx) (w : World) :
  accept_record env this remote (cdx, w) =
  if negb (present (r_payload remote))
     && negb (present (wrap_reader this remote (url cdx)))
  then (Ok RNull, (cdx, w))
  else
    let w1 := if present (r_payload remote)
              then snd (commitPayload env this (of_ostr (r_digest remote)) VUndef w)
              else w in
    let cdx' := accepted_cdx remote cdx in
    let w2 :=
      match tx_store_put env cdx' w1 with
      | (Ok _, w2) =>
          match resources_tx_done env w w2 with
          | (Ok _, w3) => w3
          | (Throw e, w3) =>
              emit (EvWarn (MExn e)) (emit (EvWarn (MResourceUpdateError (url cdx))) w3)
          end
      | (Throw e, w2) =>
          emit (EvWarn (MExn e)) (emit (EvWarn (MResourceUpdateError (url cdx))) w2)
      end in
    (Ok (accepted_result this remote cdx), (cdx', w2)).
Proof.
  unfold accept_record, accepted_result, accepted_cdx. st_unfold. simpl.
  destruct (negb (present (r_payload remote))
            && negb (present (wrap_reader this remote (url cdx)))); [reflexivity|].
  destruct (r_payload remote) as [b|]; simpl.
  - pose proof (commitPayload_no_throw env this (of_ostr (r_digest remote)) VUndef w) as N.
    destruct (commitPayload env this (of_ostr (r_digest remote)) VUndef w) as [o w1].
    simpl in N. subst o. simpl.
    destruct (present (r_extraOpts remote)); simpl;
      (destruct (tx_store_put env _ w1) as [[[]|e] w2]; simpl; [|reflexivity]);
      destruct (resources_tx_done env w w2) as [[[]|e] w3]; reflexivity.
  - destruct (present (r_extraOpts remote)); simpl;
      (destruct (tx_store_put env _ w) as [[[]|e] w2]; simpl; [|reflexivity]);
      destruct (resources_tx_done env w w2) as [[[]|e] w3]; reflexivity.
Qed.

(** Lines 93-118 in one equation. The [put] of line 115 stands outside any
    handler: when it fails, the call throws. *)
Lemma follow_revisit_eq self (depth : nat) (remote : Remote R) (payload : Result R)
    (cdx : Cdx) (w : World) :
  follow_revisit env self depth remote payload (cdx, w) =
  match lookupUrl env (default "" (r_origURL remote)) (r_origTS remote) w with
  | None => (Ok RNull, (cdx, w))
  | Some orig =>
      let update (p : Result R) (o : Cdx) (w1 : World) :=
        match db_put_resources env (revisit_cdx o cdx) w1 with
        | (Ok _, w2) => (Ok p, (revisit_cdx o cdx, w2))
        | (Throw e, w2) => (Throw e, (revisit_cdx o cdx, w2))
        end in
      if truthyR payload then update payload orig w
      else if Nat.ltb depth 2 then
        match self (depth + 1)%nat (orig, w) with
        | (Ok p, (orig', w1)) =>
            if truthyR p then update p orig' w1 else (Ok RNull, (cdx, w1))
        | (Throw e, (_, w1)) => (Throw e, (cdx, w1))
        end
      else (Ok RNull, (cdx, emit (EvWarn (MRevisitLoop (r_url remote))) w))
  end.
Proof.
  unfold follow_revisit, revisit_cdx. st_unfold. simpl.
  destruct (lookupUrl env _ _ w) as [orig|]; [|reflexivity].
  destruct (truthyR payload) eqn:P; simpl.
  - destruct (db_put_resources env _ w) as [[[]|e] w2]; reflexivity.
  - destruct (Nat.ltb depth 2); simpl.
    + destruct (self (depth + 1)%nat (orig, w)) as [[p|e] [orig' w1]]; [|reflexivity].
      simpl. destruct (truthyR p); simpl; [|reflexivity].
      destruct (db_put_resources env _ w1) as [[[]|e] w2]; reflexivity.
    + rewrite P. reflexivity.
Qed.

(** What accepting a record does to the world: no fetch, nothing in the
    "payload" and "digestRef" stores. *)
Lemma accept_record_world (this : RemoteArchiveDB) (remote : Remote R) (cdx : Cdx) (w : World) :
  let w' := snd (snd (accept_record env this remote (cdx, w))) in
  payloadStore w' = payloadStore w
  /\ digestRefStore w' = digestRefStore w
  /\ fetch_count w' = fetch_count w.
Proof.
  rewrite accept_record_eq.
  destruct (negb (present (r_payload remote)) && negb (present (wrap_reader this remote (url cdx))));
    [simpl; auto|].
  cbv zeta.
  set (w1 := if present (r_payload remote) then _ else w).
  assert (W1 : payloadStore w1 = payloadStore w /\ digestRefStore w1 = digestRefStore w
               /\ fetch_count w1 = fetch_count w).
  { subst w1. destruct (present (r_payload remote)); [|auto].
    destruct (truthy (of_ostr (r_digest remote))) eqn:T.
    - rewrite commitPayload_no_key by auto. simpl. auto.
    - rewrite commitPayload_falsy by auto. simpl. auto. }
  destruct W1 as (P1 & D1 & F1).
  pose proof (tx_store_put_frame env (accepted_cdx remote cdx) w1) as (P2 & D2 & F2 & _).
  destruct (tx_store_put env (accepted_cdx remote cdx) w1) as [[[]|e] w2]; simpl in *.
  - pose proof (resources_tx_done_frame env w w2) as (P3 & D3 & T3).
    destruct (resources_tx_done env w w2) as [[[]|e] w3]; simpl in *;
      unfold fetch_count in *; simpl; rewrite ?T3; repeat split; congruence.
  - unfold fetch_count in *; simpl; repeat split; congruence.
Qed.

Lemma revisit_cdx_frame (o cdx : Cdx) :
  url (revisit_cdx o cdx) = url cdx /\ ts (revisit_cdx o cdx) = ts cdx
  /\ digest (revisit_cdx o cdx) = digest cdx /\ source (revisit_cdx o cdx) = source cdx.
Proof. unfold revisit_cdx. simpl. auto. Qed.

Lemma accepted_cdx_frame (remote : Remote R) (cdx : Cdx) :
  record_matches remote cdx = true ->
  url (accepted_cdx remote cdx) = url cdx /\ ts (accepted_cdx remote cdx) = ts cdx
  /\ digest (accepted_cdx remote cdx) = digest cdx
  /\ source (accepted_cdx remote cdx) = source cdx.
Proof.
  intros M. apply record_matches_eq in M as (_ & _ & D).
  unfold accepted_cdx. destruct (present (r_extraOpts remote)); simpl; auto.
Qed.

(** Whatever the method called at line 101 does, the body leaves [url],
    [ts], [digest] and [source] of its own entry as they were. *)
Lemma loadPayload_body_frame self (this : RemoteArchiveDB) (depth : nat)
    (cdx : Cdx) (w : World) r cdx' w' :
  loadPayload_body env parse self this depth (cdx, w) = (r, (cdx', w')) ->
  url cdx' = url cdx /\ ts cdx' = ts cdx /\ digest cdx' = digest cdx
  /\ source cdx' = source cdx.
Proof.
  rewrite loadPayload_body_eq.
  destruct (resolved_locally env cdx w); [intros [= <- <- <-]; auto|].
  destruct (loadSource env this (source cdx) w) as [[s|e] w1];
    [|intros [= <- <- <-]; auto].
  destruct (parse s) as [remote|]; [|intros [= <- <- <-]; auto].
  destruct (record_matches remote cdx) eqn:M; simpl; [|intros [= <- <- <-]; auto].
  destruct (truthy_str (r_origURL remote)).
  - rewrite follow_revisit_eq.
    destruct (lookupUrl env _ _ w1) as [orig|]; [|intros [= <- <- <-]; auto].
    cbv zeta.
    destruct (truthyR _).
    + destruct (db_put_resources env _ w1) as [[[]|e] w2];
        intros [= <- <- <-]; apply revisit_cdx_frame.
    + destruct (Nat.ltb depth 2); [|intros [= <- <- <-]; auto].
      destruct (self _ _) as [[p|e] [orig' w2]]; [|intros [= <- <- <-]; auto].
      destruct (truthyR p); [|intros [= <- <- <-]; auto].
      destruct (db_put_resources env _ w2) as [[[]|e] w3];
        intros [= <- <- <-]; apply revisit_cdx_frame.
  - rewrite accept_record_eq.
    destruct (negb _ && negb _); [intros [= <- <- <-]; auto|].
    cbv zeta. intros [= <- <- <-]. now apply accepted_cdx_frame.
Qed.

(** C10. Every call of [loadPayload] that returns a payload or a reader
    leaves the entry's [url], [ts] and [digest] (and its [source]) as they
    were on entry: the only fields of [cdx] it writes are [respHeaders],
    [mime], [extraOpts] and [payload], and [digest], which it reassigns to
    the record's digest after line 88 found the two equal. *)
Theorem loadPayload_keeps_identity_fields (this : RemoteArchiveDB) (depth : nat)
    (cdx cdx' : Cdx) (w w' : World) (r : Result R) :
  loadPayload env parse this depth (cdx, w) = (Ok r, (cdx', w')) ->
  truthyR r = true ->
  url cdx' = url cdx /\ ts cdx' = ts cdx /\ digest cdx' = digest cdx
  /\ source cdx' = source cdx.
Proof.
  intros E _. rewrite loadPayload_unfold in E.
  exact (loadPayload_body_frame _ _ _ _ _ _ _ _ E).
Qed.

(** C3. When the record fetched for an entry differs from it in [url], [ts]
    or [digest], [loadPayload] returns [null], leaves the entry object as
    it was, and puts nothing into the "payload", "digestRef" and
    "resources" stores: beyond the fetch it only logs the mismatch. *)
Theorem loadPayload_mismatch_no_payload (this : RemoteArchiveDB) (depth : nat)
    (cdx : Cdx) (w w1 : World) (s : option Stream) (remote : Remote R) :
  resolved_locally env cdx w = false ->
  loadSource env this (source cdx) w = (Ok s, w1) ->
  parse s = Some remote ->
  r_url remote <> url cdx \/ r_ts remote <> ts cdx \/ r_digest remote <> digest cdx ->
  exists w',
    loadPayload env parse this depth (cdx, w) = (Ok RNull, (cdx, w'))
    /\ payloadStore w' = payloadStore w
    /\ digestRefStore w' = digestRefStore w
    /\ resourcesStore w' = resourcesStore w
    /\ trace w' = EvLog (mismatch_msg remote cdx) :: fetch_event env this cdx :: trace w.
Proof.
  intros L F P D.
  assert (M : record_matches remote cdx = false).
  { destruct (record_matches remote cdx) eqn:M; [|reflexivity].
    apply record_matches_eq in M. tauto. }
  pose proof (loadSource_world _ _ _ _ _ _ F) as ->.
  eexists. rewrite loadPayload_unfold, loadPayload_body_eq, L, F, P, M. simpl.
  split; [reflexivity|]. simpl. auto.
Qed.

Lemma fetch_count_emit (e : Event) (w : World) :
  fetch_count (emit e w) = ((if is_fetch e then 1 else 0) + fetch_count w)%nat.
Proof. unfold fetch_count. simpl. now destruct (is_fetch e). Qed.

Lemma loadSource_fetches (this : RemoteArchiveDB) (src : Source) (w : World) :
  fetch_count (snd (loadSource env this src w)) = S (fetch_count w).
Proof.
  destruct (loadSource env this src w) as [r w1] eqn:E.
  apply loadSource_world in E as ->. simpl. now rewrite fetch_count_emit.
Qed.

(** One call issues one fetch at most, beside those of the call it nests. *)
Lemma loadPayload_body_fetches self (n : nat) (this : RemoteArchiveDB) (depth : nat)
    (cdx : Cdx) (w : World) :
  (forall d o w0, (fetch_count (snd (snd (self d (o, w0)))) <= fetch_count w0 + n)%nat) ->
  (fetch_count (snd (snd (loadPayload_body env parse self this depth (cdx, w))))
   <= fetch_count w + S n)%nat.
Proof.
  intros IH. rewrite loadPayload_body_eq.
  destruct (resolved_locally env cdx w); [simpl; lia|].
  pose proof (loadSource_fetches this (source cdx) w) as F.
  destruct (loadSource env this (source cdx) w) as [[s|e] w1]; simpl in F;
    [|simpl; lia].
  destruct (parse s) as [remote|]; [|simpl; rewrite fetch_count_emit; simpl; lia].
  destruct (negb (record_matches remote cdx));
    [simpl; rewrite fetch_count_emit; simpl; lia|].
  destruct (truthy_str (r_origURL remote)).
  - rewrite follow_revisit_eq.
    destruct (lookupUrl env _ _ w1) as [orig|]; [|simpl; lia].
    cbv zeta.
    destruct (truthyR _).
    + pose proof (db_put_resources_frame env (revisit_cdx orig cdx) w1) as (_ & _ & F2 & _).
      destruct (db_put_resources env _ w1) as [[[]|e] w2]; simpl in *; lia.
    + destruct (Nat.ltb depth 2); [|simpl; rewrite fetch_count_emit; simpl; lia].
      specialize (IH (depth + 1)%nat orig w1).
      destruct (self _ _) as [[p|e] [orig' w2]]; simpl in IH; [|simpl; lia].
      destruct (truthyR p); [|simpl; lia].
      pose proof (db_put_resources_frame env (revisit_cdx orig' cdx) w2) as (_ & _ & F2 & _).
      destruct (db_put_resources env _ w2) as [[[]|e] w3]; simpl in *; lia.
  - pose proof (accept_record_world this remote cdx w1) as (_ & _ & F2).
    simpl in F2. lia.
Qed.

Lemma loadPayload_upto_fetches (n : nat) (this : RemoteArchiveDB) (depth : nat)
    (cdx : Cdx) (w : World) :
  (fetch_count (snd (snd (loadPayload_upto env parse n this depth (cdx, w))))
   <= fetch_count w + n)%nat.
Proof.
  revert depth cdx w. induction n as [|n IH]; intros depth cdx w.
  - simpl. lia.
  - cbn [loadPayload_upto]. apply loadPayload_body_fetches. intros d o w0. apply IH.
Qed.

(** The first half of a cycle: resolving [a] at [depth] fetches [a]'s
    record and goes on to [b]. *)
Lemma revisit_step self (this : RemoteArchiveDB) (depth : nat) (a b : Cdx)
    (ra : Remote R) (w0 w : World) :
  revisits env parse this w0 a b ra ->
  payloadStore w = payloadStore w0 ->
  loadPayload_body env parse self this depth (a, w) =
  let w1 := emit (fetch_event env this a) w in
  if Nat.ltb depth 2 then
    match self (depth + 1)%nat (b, w1) with
    | (Ok p, (b', w2)) =>
        if truthyR p then
          match db_put_resources env (revisit_cdx b' a) w2 with
          | (Ok _, w3) => (Ok p, (revisit_cdx b' a, w3))
          | (Throw e, w3) => (Throw e, (revisit_cdx b' a, w3))
          end
        else (Ok RNull, (a, w2))
    | (Throw e, (_, w2)) => (Throw e, (a, w2))
    end
  else (Ok RNull, (a, emit (EvWarn (MRevisitLoop (r_url ra))) w1)).
Proof.
  intros (L & F & M & O & C) St.
  rewrite loadPayload_body_eq. unfold resolved_locally. rewrite (L w St). simpl.
  rewrite loadSource_eq. cbv zeta.
  destruct (F w) as (s & -> & ->). rewrite M, O. simpl.
  rewrite follow_revisit_eq, C. reflexivity.
Qed.

(** C4. Revisit resolution terminates. [loadPayload] is a total function;
    a call at [depth] issues at most [1 + (2 - depth)] fetches (one per
    nested call, and line 100 nests a call only while [depth < 2]), so at
    most three from depth 0. For two revisit entries [a] and [b] that name each
    other, neither with a payload stored locally, the call for [a] fetches
    [a]'s record, [b]'s, [a]'s again, logs the loop warning and returns
    [null]; it puts nothing into any store. *)
Theorem loadPayload_revisit_cycle_terminates (this : RemoteArchiveDB) :
  (forall depth cdx w,
      (fetch_count (snd (snd (loadPayload env parse this depth (cdx, w))))
       <= fetch_count w + S (2 - depth))%nat)
  /\ (forall (a b : Cdx) (ra rb : Remote R) (w : World),
      revisits env parse this w a b ra ->
      revisits env parse this w b a rb ->
      loadPayload env parse this 0 (a, w) =
        (Ok RNull,
         (a, emit (EvWarn (MRevisitLoop (r_url ra)))
               (emit (fetch_event env this a)
                  (emit (fetch_event env this b)
                     (emit (fetch_event env this a) w)))))).
Proof.
  split.
  - intros depth cdx w. unfold loadPayload. apply loadPayload_upto_fetches.
  - intros a b ra rb w A B.
    rewrite loadPayload_unfold.
    erewrite (revisit_step _ _ _ _ _ _ w _ A); [|reflexivity].
    cbv zeta. simpl Nat.ltb. cbv iota.
    rewrite loadPayload_unfold.
    erewrite (revisit_step _ _ _ _ _ _ w _ B); [|reflexivity].
    cbv zeta. simpl Nat.ltb. cbv iota.
    rewrite loadPayload_unfold.
    erewrite (revisit_step _ _ _ _ _ _ w _ A); [|reflexivity].
    cbv zeta. simpl Nat.ltb. cbv iota. simpl. reflexivity.
Qed.

End LoadFacts.

(* ===================================================================== *)
(** * The buffering reader                                                 *)
(* ===================================================================== *)

Section ReaderFacts.

Context {R : Type} `{AsyncIterReader R}.
Variable env : Env.

Lemma setLimitSkip_eq (ol os : option Z) (p : PayloadBufferingReader R) (w : World) :
  setLimitSkip ol os (p, w) =
  let limit := default (-1) ol in
  let skip := default 0 os in
  let p' := if negb (Z.eqb limit (-1)) && Z.ltb 0 skip then set_commit false p else p in
  (Ok tt, (set_reader (rd_setLimitSkip limit skip (pb_reader p')) p', w)).
Proof.
  unfold setLimitSkip. st_unfold. cbv zeta.
  destruct (negb _ && _); reflexivity.
Qed.

(** Lines 235-245 in one equation. *)
Lemma iter_finish_eq (p : PayloadBufferingReader R) (w : World) :
  iter_finish env (p, w) =
  (Ok tt, (finished p, finish_world env p (concatChunks (pb_chunks p) (pb_size p)) w)).
Proof.
  unfold iter_finish, finish_world, finished. st_unfold. simpl.
  destruct (limit_not_zero (rd_limit (pb_reader p))); [reflexivity|].
  destruct (pb_commit p); [|reflexivity].
  destruct (commitPayload env _ _ _ w) as [[[]|e] w1] eqn:E; simpl; [reflexivity|].
  pose proof (commitPayload_no_throw env (pb_db p)
                (VBytes (concatChunks (pb_chunks p) (pb_size p)))
                (of_ostr (pb_digest p)) w) as N.
  rewrite E in N. discriminate.
Qed.

(** Lines 228-245 in one equation. *)
Lemma iter_loop_eq (p : PayloadBufferingReader R) (w : World) :
  iter_loop env (p, w) =
  match rd_pull (pb_reader p) with
  | (r', Some chunk) =>
      (Ok (GenSuspended, Yield chunk), (buffered chunk (set_reader r' p), w))
  | (r', None) =>
      let p' := set_reader r' p in
      (Ok (GenDone, Done),
       (finished p', finish_world env p' (concatChunks (pb_chunks p) (pb_size p)) w))
  end.
Proof.
  unfold iter_loop. unfold st_bind at 1. unfold get_obj at 1.
  destruct (rd_pull (pb_reader p)) as [r' [chunk|]].
  - reflexivity.
  - unfold st_bind, modify_obj at 1. rewrite iter_finish_eq. reflexivity.
Qed.

Lemma gen_next_eq (pos : GenPos) (p : PayloadBufferingReader R) (w : World) :
  gen_next env pos (p, w) =
  match pos with
  | GenStart =>
      if pb_alreadyRead p then (Ok (GenDone, Done), (p, w)) else iter_loop env (p, w)
  | GenSuspended => iter_loop env (p, w)
  | GenDone => (Ok (GenDone, Done), (p, w))
  end.
Proof.
  destruct pos; try reflexivity.
  unfold gen_next. st_unfold. destruct (pb_alreadyRead p); reflexivity.
Qed.

Lemma limit_not_zero_false (l : option Z) : limit_not_zero l = false <-> l = Some 0.
Proof.
  destruct l as [z|]; simpl; [|split; discriminate].
  rewrite negb_false_iff, Z.eqb_eq. split; congruence.
Qed.

Lemma finish_world_set_reader (p : PayloadBufferingReader R) (r : R) (c : Bytes)
    (buf : Bytes) (w : World) :
  finish_world env (set_reader r (buffered c p)) buf w
  = finish_world env (set_reader r p) buf w.
Proof. reflexivity. Qed.

(** A consumer's loop that runs a generator to its end: the chunks it was
    given are the items pulled from the wrapped reader, one [next()] each
    and one more for the end; they are what the full buffer holds, after
    what was buffered before; the world changes at the end only. *)
Lemma consume_to_end (fuel : nat) :
  forall (pos : GenPos) (p p1 : PayloadBufferingReader R) (w w1 : World) (ys : list Bytes),
    pos = GenSuspended \/ (pos = GenStart /\ pb_alreadyRead p = false) ->
    consume env fuel pos (p, w) = (Ok (ys, GenDone), (p1, w1)) ->
    pulls (S (List.length ys)) (pb_reader p) = (pb_reader p1, map Some ys ++ [None])
    /\ pb_fullbuff p1 = Some (concat (pb_chunks p ++ ys))
    /\ pb_alreadyRead p1 = true
    /\ pb_chunks p1 = []
    /\ pb_commit p1 = pb_commit p
    /\ pb_digest p1 = pb_digest p
    /\ pb_db p1 = pb_db p
    /\ w1 = finish_world env (set_reader (pb_reader p1) p) (concat (pb_chunks p ++ ys)) w.
Proof.
  induction fuel as [|fuel IH]; intros pos p p1 w w1 ys Hpos E.
  - simpl in E. unfold st_ret in E. injection E as <- -> <- <-.
    destruct Hpos as [?|[? _]]; discriminate.
  - cbn [consume] in E. unfold st_bind at 1 in E. rewrite gen_next_eq in E.
    assert (G : (match pos with
                 | GenStart => if pb_alreadyRead p then (Ok (GenDone, Done), (p, w))
                               else iter_loop env (p, w)
                 | GenSuspended => iter_loop env (p, w)
                 | GenDone => (Ok (GenDone, Done), (p, w))
                 end) = iter_loop env (p, w)).
    { destruct Hpos as [->|[-> ->]]; reflexivity. }
    rewrite G, iter_loop_eq in E. clear G.
    cbn [pulls].
    destruct (rd_pull (pb_reader p)) as [r' [chunk|]].
    + unfold st_bind at 1 in E.
      destruct (consume env fuel GenSuspended (buffered chunk (set_reader r' p), w))
        as [[[rest pos']|e] [p2 w2]] eqn:C; [|discriminate].
      unfold st_ret in E. simpl in E. injection E as <- -> <- <-.
      apply IH in C; [|now left].
      destruct C as (P & F & A & Cs & Cm & Dg & Db & W).
      change (pb_reader (buffered chunk (set_reader r' p))) with r' in P.
      cbn [List.length]. rewrite P.
      simpl in F, Cm, Dg, Db, W. rewrite <- app_assoc in F, W. simpl in F, W.
      repeat split; assumption.
    + cbv zeta in E. unfold st_ret in E. injection E as <- <- <-.
      simpl. rewrite app_nil_r. repeat split.
  Qed.

Lemma pulls_S (n : nat) (r : R) :
  pulls (S n) r =
  let (r', item) := rd_pull r in
  let (r'', items) := pulls n r' in
  (r'', item :: items).
Proof. reflexivity. Qed.

(** The loop does end when the wrapped reader does: if its items are the
    chunks [ys] and then the end, a consumer with more than [length ys]
    turns gets [ys] and finds the generator done. *)
Lemma consume_reaches_end (ys : list Bytes) :
  forall (fuel : nat) (pos : GenPos) (p : PayloadBufferingReader R) (w : World) (r1 : R),
    pos = GenSuspended \/ (pos = GenStart /\ pb_alreadyRead p = false) ->
    pulls (S (List.length ys)) (pb_reader p) = (r1, map Some ys ++ [None]) ->
    (List.length ys < fuel)%nat ->
    exists p1 w1, consume env fuel pos (p, w) = (Ok (ys, GenDone), (p1, w1)).
Proof.
  induction ys as [|y ys IH]; intros fuel pos p w r1 Hpos P F;
    (destruct fuel as [|fuel]; [simpl in F; lia|]);
    cbn [consume]; unfold st_bind at 1; rewrite gen_next_eq;
    assert (G : (match pos with
                 | GenStart => if pb_alreadyRead p then (Ok (GenDone, Done), (p, w))
                               else iter_loop env (p, w)
                 | GenSuspended => iter_loop env (p, w)
                 | GenDone => (Ok (GenDone, Done), (p, w))
                 end) = iter_loop env (p, w))
      by (destruct Hpos as [->|[-> ->]]; reflexivity);
    rewrite G, iter_loop_eq; clear G;
    rewrite pulls_S in P;
    destruct (rd_pull (pb_reader p)) as [r' item].
  - simpl in P. inversion P; subst. do 2 eexists. reflexivity.
  - cbn [List.length] in P.
    destruct (pulls (S (List.length ys)) r') as [r'' items] eqn:P'.
    simpl in P. inversion P; subst.
    destruct (IH fuel GenSuspended (buffered y (set_reader r' p)) w r1) as (p1 & w1 & E).
    + now left.
    + exact P'.
    + simpl in F. lia.
    + unfold st_bind. rewrite E. do 2 eexists. reflexivity.
Qed.

(** [readFully] after a run to the end gives the full buffer. *)
Lemma readFully_eq (fuel : nat) (p0 p1 : PayloadBufferingReader R) (w0 w1 : World)
    (ys : list Bytes) :
  consume env fuel GenStart (p0, w0) = (Ok (ys, GenDone), (p1, w1)) ->
  readFully env fuel (p0, w0) = (Ok (Some (pb_fullbuff p1)), (p1, w1)).
Proof. intros E. unfold readFully, st_bind. rewrite E. reflexivity. Qed.

(** C5. When a consumer runs the reader's stream to its end and the
    wrapped reader's [limit] is then 0, with committing still enabled,
    there is exactly one [put] on the "payload" store, of the reader's
    digest with a buffer equal to the concatenation, in order, of the
    chunks the consumer was given. Each of these chunks was pulled from the
    wrapped reader once: the wrapped reader saw one [next()] per chunk and
    one for the end, and [fullbuff] comes from the buffered chunks. When no
    store operation fails, the store then maps the digest to that buffer. *)
Theorem full_consumption_commits_once (fuel : nat)
    (p0 p1 : PayloadBufferingReader R) (w0 w1 : World) (ys : list Bytes) :
  pb_chunks p0 = [] ->
  pb_alreadyRead p0 = false ->
  pb_commit p0 = true ->
  consume env fuel GenStart (p0, w0) = (Ok (ys, GenDone), (p1, w1)) ->
  rd_limit (pb_reader p1) = Some 0 ->
  payload_puts (trace w1)
    = (VBytes (concat ys), of_ostr (pb_digest p0)) :: payload_puts (trace w0)
  /\ pb_fullbuff p1 = Some (concat ys)
  /\ pulls (S (List.length ys)) (pb_reader p0) = (pb_reader p1, map Some ys ++ [None])
  /\ ((forall op w, fails env op w = false) ->
      forall d, pb_digest p0 = Some d ->
      payloadStore w1 = <[d := VBytes (concat ys)]> (payloadStore w0)).
Proof.
  intros Cs A Cm E L.
  apply consume_to_end in E; [|right; now split].
  destruct E as (P & F & _ & _ & _ & _ & _ & W).
  rewrite Cs in F, W. simpl in F, W.
  unfold finish_world in W. simpl in W.
  apply limit_not_zero_false in L. rewrite L, Cm in W. subst w1.
  repeat split; try assumption.
  - now apply commitPayload_puts.
  - intros NF d D. rewrite D. simpl. now apply commitPayload_stores.
Qed.

(** C6. When the wrapped reader signals the end while its [limit] is not
    0, the whole run of the stream changes the world by one warning:
    nothing is put into the "payload" store. *)
Theorem leftover_bytes_skip_commit (fuel : nat)
    (p0 p1 : PayloadBufferingReader R) (w0 w1 : World) (ys : list Bytes) :
  pb_alreadyRead p0 = false ->
  consume env fuel GenStart (p0, w0) = (Ok (ys, GenDone), (p1, w1)) ->
  rd_limit (pb_reader p1) <> Some 0 ->
  w1 = emit (EvWarn (MNotConsumed (rd_limit (pb_reader p1)))) w0
  /\ payloadStore w1 = payloadStore w0
  /\ payload_puts (trace w1) = payload_puts (trace w0).
Proof.
  intros A E L.
  apply consume_to_end in E; [|right; now split].
  destruct E as (_ & _ & _ & _ & _ & _ & _ & W).
  unfold finish_world in W. simpl in W.
  destruct (limit_not_zero (rd_limit (pb_reader p1))) eqn:Z.
  - subst w1. auto.
  - apply limit_not_zero_false in Z. contradiction.
Qed.

(** With [commit] off, a [next()] puts nothing into the "payload" store
    and leaves [commit] off. *)
Lemma gen_next_commit_off (pos : GenPos) (p : PayloadBufferingReader R) (w : World) :
  pb_commit p = false ->
  exists step p' w',
    gen_next env pos (p, w) = (Ok step, (p', w'))
    /\ pb_commit p' = false
    /\ payloadStore w' = payloadStore w
    /\ digestRefStore w' = digestRefStore w
    /\ payload_puts (trace w') = payload_puts (trace w).
Proof.
  intros C. rewrite gen_next_eq.
  assert (L : exists step p' w',
             iter_loop env (p, w) = (Ok step, (p', w'))
             /\ pb_commit p' = false
             /\ payloadStore w' = payloadStore w
             /\ digestRefStore w' = digestRefStore w
             /\ payload_puts (trace w') = payload_puts (trace w)).
  { rewrite iter_loop_eq. destruct (rd_pull (pb_reader p)) as [r' [chunk|]].
    - do 3 eexists. split; [reflexivity|]. simpl. auto.
    - do 3 eexists. split; [reflexivity|]. unfold finish_world. simpl. rewrite C.
      destruct (limit_not_zero (rd_limit r')); simpl; auto. }
  destruct pos; [|exact L|].
  - destruct (pb_alreadyRead p); [|exact L]. do 3 eexists. split; [reflexivity|]. auto.
  - do 3 eexists. split; [reflexivity|]. auto.
Qed.

Lemma run_actions_commit_off (acts : list Action) :
  forall (gens : list GenPos) (p : PayloadBufferingReader R) (w : World),
    pb_commit p = false ->
    exists out p' w',
      run_actions env acts gens (p, w) = (Ok out, (p', w'))
      /\ pb_commit p' = false
      /\ payloadStore w' = payloadStore w
      /\ digestRefStore w' = digestRefStore w
      /\ payload_puts (trace w') = payload_puts (trace w).
Proof.
  induction acts as [|a acts IH]; intros gens p w C.
  - do 3 eexists. split; [reflexivity|]. auto.
  - cbn [run_actions]. unfold st_bind at 1.
    assert (S1 : exists out p' w',
               do_action env a gens (p, w) = (Ok out, (p', w'))
               /\ pb_commit p' = false
               /\ payloadStore w' = payloadStore w
               /\ digestRefStore w' = digestRefStore w
               /\ payload_puts (trace w') = payload_puts (trace w)).
    { destruct a as [l s| |g]; cbn [do_action].
      - unfold st_bind. rewrite setLimitSkip_eq. cbv zeta.
        do 3 eexists. split; [reflexivity|].
        destruct (negb _ && _); simpl; auto.
      - do 3 eexists. split; [reflexivity|]. auto.
      - destruct (gens !! g) as [pos|]; [|do 3 eexists; split; [reflexivity|]; auto].
        unfold st_bind.
        destruct (gen_next_commit_off pos p w C) as ([pos' item] & p' & w' & -> & ?).
        destruct item; do 3 eexists; (split; [reflexivity|]); assumption. }
    destruct S1 as (out1 & p1 & w1 & -> & C1 & P1 & D1 & T1).
    destruct (IH (fst out1) p1 w1 C1) as (out2 & p2 & w2 & E2 & C2 & P2 & D2 & T2).
    unfold st_bind. rewrite E2. simpl.
    do 3 eexists. split; [reflexivity|]. repeat split; congruence.
Qed.

(** C7. A call of [setLimitSkip] with a limit other than -1 and a positive
    skip turns [commit] off, and nothing that is done with the reader
    afterwards (further [setLimitSkip] calls, new iterations, any number
    of [next()] on any of its generators) turns it on again or puts
    anything into the "payload" store. *)
Theorem partial_range_never_commits (limit skip : Z)
    (p : PayloadBufferingReader R) (w : World) :
  limit <> -1 ->
  0 < skip ->
  exists p1,
    setLimitSkip (Some limit) (Some skip) (p, w) = (Ok tt, (p1, w))
    /\ pb_commit p1 = false
    /\ forall (acts : list Action) (gens : list GenPos) (w1 : World),
        exists out p2 w2,
          run_actions env acts gens (p1, w1) = (Ok out, (p2, w2))
          /\ pb_commit p2 = false
          /\ payloadStore w2 = payloadStore w1
          /\ digestRefStore w2 = digestRefStore w1
          /\ payload_puts (trace w2) = payload_puts (trace w1).
Proof.
  intros L S. rewrite setLimitSkip_eq. cbv zeta. simpl default.
  assert (C : negb (Z.eqb limit (-1)) && Z.ltb 0 skip = true).
  { apply andb_true_iff. split.
    - apply negb_true_iff, Z.eqb_neq, L.
    - now apply Z.ltb_lt. }
  rewrite C. eexists. split; [reflexivity|]. split; [reflexivity|].
  intros acts gens w1. now apply run_actions_commit_off.
Qed.

(** Once [alreadyRead] is set, whatever is done with the reader gives no
    chunk and leaves the world alone, as long as no generator was left in
    the middle of the loop. *)
Lemma run_actions_consumed (acts : list Action) :
  forall (gens : list GenPos) (p : PayloadBufferingReader R) (w : World),
    pb_alreadyRead p = true ->
    forallb not_suspended gens = true ->
    exists gens' p',
      run_actions env acts gens (p, w) = (Ok (gens', []), (p', w))
      /\ pb_alreadyRead p' = true
      /\ forallb not_suspended gens' = true.
Proof.
  induction acts as [|a acts IH]; intros gens p w A G.
  - do 2 eexists. split; [reflexivity|]. auto.
  - cbn [run_actions]. unfold st_bind at 1.
    assert (S1 : exists gens' p',
               do_action env a gens (p, w) = (Ok (gens', []), (p', w))
               /\ pb_alreadyRead p' = true
               /\ forallb not_suspended gens' = true).
    { destruct a as [l s| |g]; cbn [do_action].
      - unfold st_bind. rewrite setLimitSkip_eq. cbv zeta.
        do 2 eexists. split; [reflexivity|].
        destruct (negb _ && _); simpl; auto.
      - do 2 eexists. split; [reflexivity|]. split; [assumption|].
        rewrite forallb_app, G. reflexivity.
      - destruct (gens !! g) as [pos|] eqn:Lk;
          [|do 2 eexists; split; [reflexivity|]; auto].
        assert (NS : not_suspended pos = true).
        { rewrite forallb_forall in G. apply G.
          apply list_elem_of_In, list_elem_of_lookup. eauto. }
        unfold st_bind. rewrite gen_next_eq.
        assert (G' : forallb not_suspended (<[g := GenDone]> gens) = true).
        { rewrite forallb_forall in *. intros x Hx.
          apply list_elem_of_In, list_elem_of_lookup in Hx as [i Hi].
          destruct (decide (i = g)) as [->|Ne].
          - rewrite list_lookup_insert_eq in Hi by (eapply lookup_lt_Some; eauto).
            now injection Hi as <-.
          - rewrite list_lookup_insert_ne in Hi by congruence.
            apply G, list_elem_of_In, list_elem_of_lookup. eauto. }
        destruct pos; [|discriminate|].
        + rewrite A. do 2 eexists. split; [reflexivity|]. auto.
        + do 2 eexists. split; [reflexivity|]. auto. }
    destruct S1 as (gens1 & p1 & -> & A1 & G1).
    destruct (IH gens1 p1 w A1 G1) as (gens2 & p2 & E2 & A2 & G2).
    unfold st_bind. simpl. rewrite E2. simpl.
    do 2 eexists. split; [reflexivity|]. auto.
Qed.

(** C8. Once a consumer has run the reader's stream to its end,
    [alreadyRead] is set, and from then on every attempt to iterate the
    reader (new iterations, [next()] on them or on the finished generator,
    with [setLimitSkip] calls in between) gives no chunk and changes
    nothing outside the reader. *)
Theorem consumed_reader_yields_nothing (fuel : nat)
    (p0 p1 : PayloadBufferingReader R) (w0 w1 : World) (ys : list Bytes) :
  consume env fuel GenStart (p0, w0) = (Ok (ys, GenDone), (p1, w1)) ->
  pb_alreadyRead p1 = true
  /\ (forall fuel' w, consume env (S fuel') GenStart (p1, w) = (Ok ([], GenDone), (p1, w)))
  /\ (forall (acts : list Action) (gens : list GenPos) (w : World),
        forallb not_suspended gens = true ->
        exists gens' p2,
          run_actions env acts gens (p1, w) = (Ok (gens', []), (p2, w))
          /\ pb_alreadyRead p2 = true).
Proof.
  intros E.
  assert (A : pb_alreadyRead p1 = true).
  { destruct (pb_alreadyRead p0) eqn:A0.
    - destruct fuel as [|fuel]; [discriminate|].
      cbn [consume] in E. unfold st_bind in E. rewrite gen_next_eq, A0 in E.
      unfold st_ret in E. now injection E as <- <- <-.
    - apply consume_to_end in E; [|right; now split]. tauto. }
  split; [exact A|]. split.
  - intros fuel' w. cbn [consume]. unfold st_bind. rewrite gen_next_eq, A. reflexivity.
  - intros acts gens w G.
    destruct (run_actions_consumed acts gens p1 w A G) as (gens' & p2 & E2 & A2 & _).
    eauto.
Qed.

End ReaderFacts.

(* ===================================================================== *)
(** * Records that carry their payload                                     *)
(* ===================================================================== *)

Section AcceptedRecords.

Context {R : Type} `{AsyncIterReader R}.
Variable env : Env.
Variable parse : option Stream -> option (Remote R).


(** A fetch that fails with another status than 401/403 ends in [null],
    provided the record loader makes nothing of a missing stream. *)
Lemma loadPayload_other_failure (this : RemoteArchiveDB) (depth : nat)
    (cdx : Cdx) (w : World) st :
  resolved_locally env cdx w = false ->
  getRange env (loader_for env this (source cdx))
    (src_start (source cdx)) (src_length (source cdx)) w = FetchFail st ->
  is_auth_status st = false ->
  parse None = None ->
  fst (loadPayload env parse this depth (cdx, w)) = Ok RNull.
Proof.
  intros L F A P.
  rewrite loadPayload_unfold, loadPayload_body_eq, L.
  rewrite (loadSource_other_failure env this (source cdx) w st F A), P.
  reflexivity.
Qed.

End AcceptedRecords.

(* ===================================================================== *)
(** * Concrete runs                                                        *)
(* ===================================================================== *)

Import Sample.

(** C1. The entry of the specification's example, fetched as a record that
    matches it and carries the inline payload [hello]: [loadPayload] returns
    the payload, yet the "payload" store holds nothing under the record's
    digest afterwards. Line 144 calls [commitPayload(digest)]: the digest
    arrives as [payload], [digest] is [undefined], the [put] has no key and
    the error is logged. *)
Theorem loadPayload_inline_payload_not_committed :
  fst (loadPayload env_plain (parse_as inline_record) db 0 (entry, empty_world))
    = Ok (RPayload hello)
  /\ payloadStore
       (snd (snd (loadPayload env_plain (parse_as inline_record) db 0 (entry, empty_world))))
     !! "sha1:ABC" = None
  /\ payload_puts
       (trace (snd (snd (loadPayload env_plain (parse_as inline_record) db 0
                           (entry, empty_world)))))
     = [(VStr "sha1:ABC", VUndef)]
  /\ In (EvWarn (MPayloadCommitError (DataError "payload")))
       (trace (snd (snd (loadPayload env_plain (parse_as inline_record) db 0
                           (entry, empty_world))))).
Proof.
  repeat split; try (vm_compute; reflexivity).
  vm_compute. right. left. reflexivity.
Qed.

(** C2. A fetch that fails with status 401 or 403, under either way of
    constructing the database: [loadSource] throws a [ReferenceError] for
    [url], not [AuthNeeded] with the url that was fetched. The [catch]
    clause of line 52 is outside the block that declares [url] (line 45), and
    with a loader object that block is not even entered. A failure with
    status 500 gives [null]. *)
Theorem loadSource_auth_failure_is_ReferenceError :
  fst (loadSource (env_status 401) db (source entry) empty_world)
    = Throw (ReferenceError "url")
  /\ fst (loadSource (env_status 403) db (source entry) empty_world)
    = Throw (ReferenceError "url")
  /\ fst (loadSource (env_status 401) db_with_loader (source entry) empty_world)
    = Throw (ReferenceError "url")
  /\ fst (loadSource (env_status 403) db_with_loader (source entry) empty_world)
    = Throw (ReferenceError "url")
  /\ fst (loadSource (env_status 500) db (source entry) empty_world) = Ok None
  /\ fst (loadSource (env_status 500) db_with_loader (source entry) empty_world) = Ok None.
Proof. repeat split; vm_compute; reflexivity. Qed.

(** C9. The entry [entryA] is a revisit of [entryO], whose record matches
    and carries the inline payload [hello]. The nested call for [entryO]
    obtains the payload; when the [put] of line 115 then fails, the call for
    [entryA] throws the store's error and the payload is lost. Lines 140-159
    guard the same [put] for a record that carries its payload; line 115 has
    no handler around it. *)
Theorem loadPayload_revisit_put_failure_throws :
  fst (loadPayload env_revisit_failing parse_revisit db 0 (entryA, empty_world))
    = Throw (StoreFailure ResourcesDbPut)
  /\ fst (loadPayload env_revisit_failing parse_revisit db 1
            (entryO, emit (fetch_event env_revisit_failing db entryA) empty_world))
    = Ok (RPayload hello)
  /\ fst (loadPayload env_revisit parse_revisit db 0 (entryA, empty_world))
    = Ok (RPayload hello).
Proof. repeat split; vm_compute; reflexivity. Qed.

(** The mismatch theorem on the specification's second example: the record
    fetched for [entry] has digest "sha1:XYZ". *)
Lemma loadPayload_mismatch_no_payload_witness :
  resolved_locally env_plain entry empty_world = false
  /\ loadSource env_plain db (source entry) empty_world = (Ok (Some [x01]), fetched_world)
  /\ parse_as other_digest_record (Some [x01]) = Some other_digest_record
  /\ (r_url other_digest_record <> url entry
      \/ r_ts other_digest_record <> ts entry
      \/ r_digest other_digest_record <> digest entry)
  /\ exists w',
      loadPayload env_plain (parse_as other_digest_record) db 0 (entry, empty_world)
        = (Ok RNull, (entry, w'))
      /\ payloadStore w' = payloadStore empty_world
      /\ digestRefStore w' = digestRefStore empty_world
      /\ resourcesStore w' = resourcesStore empty_world
      /\ trace w' = EvLog (mismatch_msg other_digest_record entry)
                     :: fetch_event env_plain db entry :: trace empty_world.
Proof.
  split; [reflexivity|]. split; [reflexivity|]. split; [reflexivity|].
  split; [right; right; discriminate|].
  apply (loadPayload_mismatch_no_payload env_plain (parse_as other_digest_record) db 0
           entry empty_world fetched_world (Some [x01]) other_digest_record);
    [reflexivity | reflexivity | reflexivity | right; right; discriminate].
Defined.

(** The identity fields on the specification's first example. *)
Lemma loadPayload_keeps_identity_fields_witness :
  loadPayload env_plain (parse_as inline_record) db 0 (entry, empty_world)
    = (Ok (RPayload hello), (fst (snd inline_run), snd (snd inline_run)))
  /\ truthyR (@RPayload ChunkReader hello) = true
  /\ url (fst (snd inline_run)) = url entry
  /\ ts (fst (snd inline_run)) = ts entry
  /\ digest (fst (snd inline_run)) = digest entry
  /\ source (fst (snd inline_run)) = source entry.
Proof.
  split; [vm_compute; reflexivity|]. split; [reflexivity|].
  apply (loadPayload_keeps_identity_fields env_plain (parse_as inline_record) db 0
           entry (fst (snd inline_run)) empty_world (snd (snd inline_run))
           (RPayload hello));
    [vm_compute; reflexivity | reflexivity].
Defined.

Lemma revisits_entryA : revisits env_cycle parse_cycle db empty_world entryA entryB revisitA.
Proof.
  unfold revisits. split; [|split; [|split; [|split]]].
  - intros w E. simpl. rewrite E. reflexivity.
  - intros w. exists [x0a]. split; reflexivity.
  - reflexivity.
  - reflexivity.
  - intros w. reflexivity.
Defined.

Lemma revisits_entryB : revisits env_cycle parse_cycle db empty_world entryB entryA revisitB.
Proof.
  unfold revisits. split; [|split; [|split; [|split]]].
  - intros w E. simpl. rewrite E. reflexivity.
  - intros w. exists [x0b]. split; reflexivity.
  - reflexivity.
  - reflexivity.
  - intros w. reflexivity.
Defined.

(** The cycle of [entryA] and [entryB]: three fetches, the warning, [null]. *)
Lemma loadPayload_revisit_cycle_terminates_witness :
  revisits env_cycle parse_cycle db empty_world entryA entryB revisitA
  /\ revisits env_cycle parse_cycle db empty_world entryB entryA revisitB
  /\ loadPayload env_cycle parse_cycle db 0 (entryA, empty_world) =
       (Ok RNull,
        (entryA, emit (EvWarn (MRevisitLoop (r_url revisitA)))
                   (emit (fetch_event env_cycle db entryA)
                      (emit (fetch_event env_cycle db entryB)
                         (emit (fetch_event env_cycle db entryA) empty_world))))).
Proof.
  split; [exact revisits_entryA|]. split; [exact revisits_entryB|].
  exact (proj2 (loadPayload_revisit_cycle_terminates env_cycle parse_cycle db)
           entryA entryB revisitA revisitB empty_world revisits_entryA revisits_entryB).
Defined.

(** Reading all ten bytes of [reader_whole]: one [put], of "helloworld". *)
Lemma full_consumption_commits_once_witness :
  pb_chunks (buffering reader_whole) = []
  /\ pb_alreadyRead (buffering reader_whole) = false
  /\ pb_commit (buffering reader_whole) = true
  /\ consume env_plain 3 GenStart (buffering reader_whole, empty_world)
     = (Ok ([hello; world], GenDone), (fst (snd whole_run), snd (snd whole_run)))
  /\ rd_limit (pb_reader (fst (snd whole_run))) = Some 0
  /\ payload_puts (trace (snd (snd whole_run)))
     = (VBytes (concat [hello; world]), of_ostr (pb_digest (buffering reader_whole)))
       :: payload_puts (trace empty_world)
  /\ pb_fullbuff (fst (snd whole_run)) = Some (concat [hello; world])
  /\ pulls (S (List.length [hello; world])) (pb_reader (buffering reader_whole))
     = (pb_reader (fst (snd whole_run)), map Some [hello; world] ++ [None])
  /\ ((forall op w, fails env_plain op w = false) ->
      forall d, pb_digest (buffering reader_whole) = Some d ->
      payloadStore (snd (snd whole_run))
        = <[d := VBytes (concat [hello; world])]> (payloadStore empty_world)).
Proof.
  split; [reflexivity|]. split; [reflexivity|]. split; [reflexivity|].
  split; [vm_compute; reflexivity|]. split; [vm_compute; reflexivity|].
  apply (full_consumption_commits_once env_plain 3 (buffering reader_whole)
           (fst (snd whole_run)) empty_world (snd (snd whole_run)) [hello; world]);
    [reflexivity | reflexivity | reflexivity | vm_compute; reflexivity
    | vm_compute; reflexivity].
Defined.

(** Reading [reader_short] to its end: ten bytes are still expected. *)
Lemma leftover_bytes_skip_commit_witness :
  pb_alreadyRead (buffering reader_short) = false
  /\ consume env_plain 3 GenStart (buffering reader_short, empty_world)
     = (Ok ([hello; world], GenDone), (fst (snd short_run), snd (snd short_run)))
  /\ rd_limit (pb_reader (fst (snd short_run))) <> Some 0
  /\ snd (snd short_run)
     = emit (EvWarn (MNotConsumed (rd_limit (pb_reader (fst (snd short_run)))))) empty_world
  /\ payloadStore (snd (snd short_run)) = payloadStore empty_world
  /\ payload_puts (trace (snd (snd short_run))) = payload_puts (trace empty_world).
Proof.
  split; [reflexivity|]. split; [vm_compute; reflexivity|].
  split; [vm_compute; discriminate|].
  apply (leftover_bytes_skip_commit env_plain 3 (buffering reader_short)
           (fst (snd short_run)) empty_world (snd (snd short_run)) [hello; world]);
    [reflexivity | vm_compute; reflexivity | vm_compute; discriminate].
Defined.

(** [setLimitSkip(5, 2)] on a new reader. *)
Lemma partial_range_never_commits_witness :
  5 <> -1
  /\ 0 < 2
  /\ exists p1,
      setLimitSkip (Some 5) (Some 2) (buffering reader_whole, empty_world)
        = (Ok tt, (p1, empty_world))
      /\ pb_commit p1 = false
      /\ forall (acts : list Action) (gens : list GenPos) (w1 : World),
          exists out p2 w2,
            run_actions env_plain acts gens (p1, w1) = (Ok out, (p2, w2))
            /\ pb_commit p2 = false
            /\ payloadStore w2 = payloadStore w1
            /\ digestRefStore w2 = digestRefStore w1
            /\ payload_puts (trace w2) = payload_puts (trace w1).
Proof.
  split; [lia|]. split; [lia|].
  apply (partial_range_never_commits env_plain 5 2 (buffering reader_whole) empty_world);
    lia.
Defined.

(** After [reader_whole] was read to its end. *)
Lemma consumed_reader_yields_nothing_witness :
  consume env_plain 3 GenStart (buffering reader_whole, empty_world)
    = (Ok ([hello; world], GenDone), (fst (snd whole_run), snd (snd whole_run)))
  /\ pb_alreadyRead (fst (snd whole_run)) = true
  /\ (forall fuel' w,
        consume env_plain (S fuel') GenStart (fst (snd whole_run), w)
          = (Ok ([], GenDone), (fst (snd whole_run), w)))
  /\ (forall (acts : list Action) (gens : list GenPos) (w : World),
        forallb not_suspended gens = true ->
        exists gens' p2,
          run_actions env_plain acts gens (fst (snd whole_run), w) = (Ok (gens', []), (p2, w))
          /\ pb_alreadyRead p2 = true).
Proof.
  split; [vm_compute; reflexivity|].
  apply (consumed_reader_yields_nothing env_plain 3 (buffering reader_whole)
           (fst (snd whole_run)) empty_world (snd (snd whole_run)) [hello; world]);
    vm_compute; reflexivity.
Defined.

(* ===================================================================== *)
(** * Headers, loaders and the fetch                                       *)
(* ===================================================================== *)

Section FetchFacts.

Variable env : Env.


(** X2. [updateHeaders] keeps the last headers only, and changes nothing
    else of the database: not the kind of source it fetches from, its
    prefix, its name or [useRefCounts]. *)
Theorem updateHeaders_last_wins (this : RemoteArchiveDB) (h1 h2 : Headers) :
  updateHeaders h2 (updateHeaders h1 this) = updateHeaders h2 this
  /\ present (loader (updateHeaders h1 this)) = present (loader this)
  /\ remoteUrlPrefix (updateHeaders h1 this) = remoteUrlPrefix this
  /\ name (updateHeaders h1 this) = name this
  /\ useRefCounts (updateHeaders h1 this) = useRefCounts this.
Proof. unfold updateHeaders. destruct (loader this) as [l|]; simpl; auto. Qed.




End FetchFacts.

(* ===================================================================== *)
(** * commitPayload and the stores                                         *)
(* ===================================================================== *)

Ltac store_cases :=
  unfold commitPayload, payload_put, ref_get, ref_put, payload_tx_done;
  st_unfold;
  try match goal with E : truthy _ = _ |- _ => rewrite E end;
  simpl;
  repeat (match goal with
          | |- context [match ?x with _ => _ end] =>
              lazymatch x with
              | context [match _ with _ => _ end] => fail
              | _ => destruct x eqn:?
              end
          | |- context [if ?x then _ else _] =>
              lazymatch x with
              | context [if _ then _ else _] => fail
              | _ => destruct x eqn:?
              end
          end; simpl in *; simplify_eq).

Section CommitExtras.

Variable env : Env.

(** With no failing store operation, [commitPayload] in one equation. *)
Lemma commitPayload_ok_eq (this : RemoteArchiveDB) (payload : JsVal) (k : string)
    (w : World) :
  (forall op w, fails env op w = false) ->
  truthy payload = true ->
  commitPayload env this payload (VStr k) w =
  let w1 := with_payloadStore (<[k := payload]> (payloadStore w))
              (emit (EvPayloadPut payload (VStr k)) w) in
  (Ok tt,
   if useRefCounts this then
     match digestRefStore w !! k with
     | Some r =>
         with_digestRefStore
           (<[k := mkDigestRef (ref_count r) (js_length payload)]> (digestRefStore w))
           (emit (EvRefPut k (mkDigestRef (ref_count r) (js_length payload))) w1)
     | None => w1
     end
   else w1).
Proof.
  intros F E. unfold commitPayload, payload_put, ref_get, ref_put, payload_tx_done.
  st_unfold. simpl. rewrite E. simpl. rewrite !F.
  destruct (useRefCounts this); simpl; rewrite ?F; simpl; [|reflexivity].
  destruct (digestRefStore w !! k); simpl; rewrite ?F; simpl; rewrite ?F; reflexivity.
Qed.

(** X6. [commitPayload] does nothing at all for a [payload] that is
    [undefined], an empty string or 0; an empty byte array is an object, so
    it is put like any other payload. *)
Theorem commitPayload_empty_inputs (this : RemoteArchiveDB) (digest : JsVal) (w : World) :
  commitPayload env this VUndef digest w = (Ok tt, w)
  /\ commitPayload env this (VStr "") digest w = (Ok tt, w)
  /\ commitPayload env this (VNum 0) digest w = (Ok tt, w)
  /\ payload_puts (trace (snd (commitPayload env this (VBytes []) digest w)))
     = (VBytes [], digest) :: payload_puts (trace w).
Proof.
  repeat split; try reflexivity. now apply commitPayload_puts.
Qed.

(** X7. [commitPayload] touches one key only: in the "payload" and the
    "digestRef" store every other digest reads as before, and the catalog
    is not written, whatever fails on the way. *)
Theorem commitPayload_other_digests_untouched (this : RemoteArchiveDB)
    (payload digest : JsVal) (w : World) (k' : string) :
  as_key digest <> Some k' ->
  payloadStore (snd (commitPayload env this payload digest w)) !! k'
    = payloadStore w !! k'
  /\ digestRefStore (snd (commitPayload env this payload digest w)) !! k'
    = digestRefStore w !! k'
  /\ resourcesStore (snd (commitPayload env this payload digest w)) = resourcesStore w.
Proof.
  intros K. store_cases; repeat split; auto;
    rewrite ?lookup_insert_ne by congruence; reflexivity.
Qed.

(** X8. [commitPayload] never creates a row in "digestRef" and never
    changes a count: each digest has a row afterwards exactly when it had
    one before, with the same count. *)
Theorem commitPayload_keeps_ref_rows (this : RemoteArchiveDB)
    (payload digest : JsVal) (w : World) (k' : string) :
  ref_count <$> (digestRefStore (snd (commitPayload env this payload digest w)) !! k')
  = ref_count <$> (digestRefStore w !! k').
Proof.
  store_cases; auto;
    match goal with
    | |- context [<[?k := _]> _ !! k'] =>
        destruct (decide (k = k')) as [->|Ne];
        [rewrite lookup_insert_eq; simpl;
         match goal with Hl : _ !! k' = Some _ |- _ => now rewrite Hl end
        |now rewrite lookup_insert_ne by congruence]
    end.
Qed.

(** X9. A database as the constructor makes it, with or without a later
    [updateHeaders], has reference counts off, and its [commitPayload]
    leaves the "digestRef" store as it is. *)
Theorem constructed_db_leaves_digestRef (nm : string) (arg : PrefixOrLoader)
    (h0 : option Headers) (h : Headers) (payload digest : JsVal) (w : World) :
  digestRefStore (snd (commitPayload env (RemoteArchiveDB_new nm arg h0) payload digest w))
    = digestRefStore w
  /\ digestRefStore
       (snd (commitPayload env (updateHeaders h (RemoteArchiveDB_new nm arg h0))
               payload digest w))
    = digestRefStore w.
Proof.
  assert (G : forall this, useRefCounts this = false ->
            digestRefStore (snd (commitPayload env this payload digest w))
            = digestRefStore w).
  { intros this U. unfold commitPayload, payload_put, payload_tx_done. st_unfold.
    rewrite U. simpl.
    repeat (match goal with
            | |- context [if ?x then _ else _] =>
                lazymatch x with
                | context [if _ then _ else _] => fail
                | _ => destruct x eqn:?
                end
            | |- context [match ?x with _ => _ end] =>
                lazymatch x with
                | context [match _ with _ => _ end] => fail
                | _ => destruct x eqn:?
                end
            end; simpl in *; simplify_eq); reflexivity. }
  split; apply G; destruct arg; reflexivity.
Qed.

(** X10. When no store operation fails, [commitPayload] is an upsert:
    committing the same payload under the same digest twice leaves both
    stores as committing it once does, and of two payloads committed under
    one digest the store holds the later. *)
Theorem commitPayload_upsert (this : RemoteArchiveDB) (p1 p2 : JsVal) (k : string)
    (w : World) :
  (forall op w, fails env op w = false) ->
  truthy p1 = true ->
  truthy p2 = true ->
  let once := snd (commitPayload env this p1 (VStr k) w) in
  let twice := snd (commitPayload env this p1 (VStr k) once) in
  let later := snd (commitPayload env this p2 (VStr k) once) in
  payloadStore twice = payloadStore once
  /\ digestRefStore twice = digestRefStore once
  /\ payloadStore later !! k = Some p2.
Proof.
  intros F T1 T2. cbv zeta.
  rewrite !(commitPayload_ok_eq this _ k _ F) by assumption. cbv zeta.
  destruct (useRefCounts this); simpl.
  - destruct (digestRefStore w !! k) as [r|] eqn:L; simpl.
    + rewrite !lookup_insert_eq. simpl.
      rewrite !insert_insert_eq, lookup_insert_eq. auto.
    + rewrite L. simpl. rewrite insert_insert_eq, lookup_insert_eq. auto.
  - rewrite insert_insert_eq, lookup_insert_eq. auto.
Qed.

(** X11. With reference counts on and no failing store operation,
    [commitPayload] sets the size of the digest's existing row to the
    payload's length and keeps its count. *)
Theorem commitPayload_refreshes_size (this : RemoteArchiveDB) (payload : JsVal)
    (k : string) (r : DigestRef) (w : World) :
  (forall op w, fails env op w = false) ->
  useRefCounts this = true ->
  truthy payload = true ->
  digestRefStore w !! k = Some r ->
  digestRefStore (snd (commitPayload env this payload (VStr k) w)) !! k
    = Some (mkDigestRef (ref_count r) (js_length payload)).
Proof.
  intros F U T L. rewrite (commitPayload_ok_eq this _ k _ F) by assumption.
  cbv zeta. rewrite U, L. simpl. apply lookup_insert_eq.
Qed.

(** X12. [commitPayload] never throws: whatever store operation fails, it
    returns, and then either the store holds the payload under the digest
    or a "Payload Commit Error" warning is the last thing logged. *)
Theorem commitPayload_swallows_errors (this : RemoteArchiveDB)
    (payload digest : JsVal) (w : World) :
  fst (commitPayload env this payload digest w) = Ok tt
  /\ (truthy payload = false
      \/ (exists k, as_key digest = Some k
                    /\ payloadStore (snd (commitPayload env this payload digest w)) !! k
                       = Some payload)
      \/ (exists e rest,
            trace (snd (commitPayload env this payload digest w))
            = EvWarn (MPayloadCommitError e) :: rest)).
Proof.
  split; [apply commitPayload_no_throw|].
  destruct (truthy payload) eqn:T; [right|now left].
  now apply commitPayload_stored_or_logged.
Qed.

End CommitExtras.

(* ===================================================================== *)
(** * More on loadPayload                                                  *)
(* ===================================================================== *)

Section LoadExtras.

Context {R : Type} `{AsyncIterReader R}.
Variable env : Env.
Variable parse : option Stream -> option (Remote R).



(** X13. An entry that has response headers, a mime type other than
    "warc/revisit" and a payload found locally is answered from what is
    stored: [loadPayload] returns that payload, fetches nothing, logs
    nothing and leaves the entry and every store as they are. *)
Theorem loadPayload_local_hit (this : RemoteArchiveDB) (depth : nat) (cdx : Cdx)
    (w : World) (b : Bytes) (h : Headers) :
  super_loadPayload env cdx w = Some b ->
  respHeaders cdx = Some h ->
  mime cdx <> Some REVISIT ->
  loadPayload env parse this depth (cdx, w) = (Ok (RPayload b), (cdx, w)).
Proof.
  intros S Hh M.
  assert (L : resolved_locally env cdx w = true).
  { unfold resolved_locally. rewrite S, Hh. simpl.
    destruct (ostr_eqb (mime cdx) (Some REVISIT)) eqn:E; [|reflexivity].
    apply ostr_eqb_eq in E. contradiction. }
  now rewrite loadPayload_unfold, loadPayload_body_eq, L, S.
Qed.


(** X15. A revisit record whose original capture is not in the catalog ends
    the resolution at once: [null], without a log line, without a nested
    call and without a write; only the fetch has happened. *)
Theorem loadPayload_revisit_target_missing (this : RemoteArchiveDB) (depth : nat)
    (cdx : Cdx) (w w1 : World) (s : option Stream) (remote : Remote R) :
  resolved_locally env cdx w = false ->
  loadSource env this (source cdx) w = (Ok s, w1) ->
  parse s = Some remote ->
  record_matches remote cdx = true ->
  truthy_str (r_origURL remote) = true ->
  lookupUrl env (default "" (r_origURL remote)) (r_origTS remote) w1 = None ->
  loadPayload env parse this depth (cdx, w)
  = (Ok RNull, (cdx, emit (fetch_event env this cdx) w)).
Proof.
  intros L F P M O C.
  pose proof (loadSource_world _ _ _ _ _ _ F) as W1.
  rewrite loadPayload_unfold, loadPayload_body_eq, L, F, P, M, O. simpl negb. cbv iota.
  rewrite follow_revisit_eq, C. now rewrite W1.
Qed.


(** X17. What such a resolution writes on the entry object: [respHeaders]
    becomes the record's (also when the record has none), [extraOpts]
    becomes the record's only when the record has some, and [mime] and the
    inline [payload] field stay as they were: the payload returned is not
    kept on the entry. *)
Theorem loadPayload_entry_update (this : RemoteArchiveDB) (depth : nat)
    (cdx cdx' : Cdx) (w w1 w' : World) (s : option Stream) (remote : Remote R)
    (r : Result R) :
  resolved_locally env cdx w = false ->
  loadSource env this (source cdx) w = (Ok s, w1) ->
  parse s = Some remote ->
  record_matches remote cdx = true ->
  truthy_str (r_origURL remote) = false ->
  loadPayload env parse this depth (cdx, w) = (Ok r, (cdx', w')) ->
  truthyR r = true ->
  respHeaders cdx' = r_respHeaders remote
  /\ extraOpts cdx' = match r_extraOpts remote with
                      | Some o => Some o
                      | None => extraOpts cdx
                      end
  /\ mime cdx' = mime cdx
  /\ payload cdx' = payload cdx.
Proof.
  intros L F P M O E T.
  rewrite loadPayload_unfold, loadPayload_body_eq, L, F, P, M, O in E.
  simpl negb in E. cbv iota in E. rewrite accept_record_eq in E.
  destruct (negb _ && negb _).
  - injection E as <- <- <-. discriminate.
  - cbv zeta in E. injection E as <- <- <-.
    unfold accepted_cdx. destruct (r_extraOpts remote); simpl; auto.
Qed.

(** X18. What a matching record that is no revisit resolves to: its inline
    payload when it has one, even if it has a reader too; else its reader,
    inside a new buffering reader bound to the record's digest and the
    entry's url when the digest is a non-empty string, and bare when the
    record has no digest; else [null]. *)
Theorem loadPayload_result_shape (this : RemoteArchiveDB) (depth : nat)
    (cdx : Cdx) (w w1 : World) (s : option Stream) (remote : Remote R) :
  resolved_locally env cdx w = false ->
  loadSource env this (source cdx) w = (Ok s, w1) ->
  parse s = Some remote ->
  record_matches remote cdx = true ->
  truthy_str (r_origURL remote) = false ->
  fst (loadPayload env parse this depth (cdx, w))
  = Ok (match r_payload remote, r_reader remote with
        | Some b, _ => RPayload b
        | None, Some rd =>
            if truthy_str (r_digest remote)
            then RBuffering (mkPBR this rd (r_digest remote) (url cdx) [] 0 None true false)
            else RReader rd
        | None, None => RNull
        end).
Proof.
  intros L F P M O.
  rewrite loadPayload_unfold, loadPayload_body_eq, L, F, P, M, O.
  simpl negb. cbv iota. rewrite accept_record_eq.
  unfold accepted_result, wrap_reader.
  destruct (r_payload remote) as [b|]; simpl; [reflexivity|].
  destruct (r_reader remote) as [rd|]; simpl; [|reflexivity].
  destruct (truthy_str (r_digest remote)); reflexivity.
Qed.

(** X19. A matching record that is no revisit and has neither payload nor
    reader gives [null] before anything is written: the entry object and
    the catalog stay as they were and nothing is logged. *)
Theorem loadPayload_empty_record (this : RemoteArchiveDB) (depth : nat)
    (cdx : Cdx) (w w1 : World) (s : option Stream) (remote : Remote R) :
  resolved_locally env cdx w = false ->
  loadSource env this (source cdx) w = (Ok s, w1) ->
  parse s = Some remote ->
  record_matches remote cdx = true ->
  truthy_str (r_origURL remote) = false ->
  r_payload remote = None ->
  r_reader remote = None ->
  loadPayload env parse this depth (cdx, w)
  = (Ok RNull, (cdx, emit (fetch_event env this cdx) w)).
Proof.
  intros L F P M O NP NR.
  pose proof (loadSource_world _ _ _ _ _ _ F) as W1.
  rewrite loadPayload_unfold, loadPayload_body_eq, L, F, P, M, O.
  simpl negb. cbv iota. rewrite accept_record_eq.
  unfold wrap_reader. rewrite NP, NR. simpl. now rewrite W1.
Qed.

End LoadExtras.

Section RevisitExtras.

Context {R : Type} `{AsyncIterReader R}.
Variable env : Env.
Variable parse : option Stream -> option (Remote R).

Lemma db_put_resources_eq (c : Cdx) (w : World) :
  db_put_resources env c w =
  if fails env ResourcesDbPut (emit (EvResourcesPut c) w)
  then (Throw (StoreFailure ResourcesDbPut), emit (EvResourcesPut c) w)
  else (Ok tt, with_resourcesStore (<[cdx_key c := c]> (resourcesStore w))
                 (emit (EvResourcesPut c) w)).
Proof.
  unfold db_put_resources. st_unfold. simpl.
  destruct (fails env ResourcesDbPut _); reflexivity.
Qed.

(** X20. A revisit entry with nothing stored locally is resolved through
    its original: the nested call's payload or reader is returned as it is,
    and the entry takes the response headers and mime type that the nested
    call left on the original's entry (not those the catalog had for it),
    loses its inline [payload] field, keeps its other fields, and is put
    into the catalog under its own url and timestamp. *)
Theorem loadPayload_revisit_resolves (this : RemoteArchiveDB) (depth : nat)
    (a o o' : Cdx) (w w1 w2 : World) (s : option Stream) (ra : Remote R)
    (p : Result R) :
  super_loadPayload env a w = None ->
  loadSource env this (source a) w = (Ok s, w1) ->
  parse s = Some ra ->
  record_matches ra a = true ->
  truthy_str (r_origURL ra) = true ->
  lookupUrl env (default "" (r_origURL ra)) (r_origTS ra) w1 = Some o ->
  (depth < 2)%nat ->
  loadPayload env parse this (depth + 1) (o, w1) = (Ok p, (o', w2)) ->
  truthyR p = true ->
  fails env ResourcesDbPut
    (emit (EvResourcesPut
             (mkCdx (url a) (ts a) (digest a) (mime o') (respHeaders o') (source a)
                (extraOpts a) None)) w2) = false ->
  exists w3,
    loadPayload env parse this depth (a, w)
    = (Ok p, (mkCdx (url a) (ts a) (digest a) (mime o') (respHeaders o') (source a)
                (extraOpts a) None, w3))
    /\ resourcesStore w3
       = <[(url a, ts a) := mkCdx (url a) (ts a) (digest a) (mime o') (respHeaders o')
                              (source a) (extraOpts a) None]> (resourcesStore w2)
    /\ payloadStore w3 = payloadStore w2
    /\ fetch_count w3 = fetch_count w2.
Proof.
  intros S F P M O C D N T NF.
  assert (L : resolved_locally env a w = false).
  { unfold resolved_locally. now rewrite S. }
  apply Nat.ltb_lt in D.
  rewrite loadPayload_unfold, loadPayload_body_eq, L, F, P, M, O.
  simpl negb. cbv iota.
  rewrite follow_revisit_eq, C, S. cbv zeta. simpl truthyR. cbv iota.
  rewrite D, N. cbv iota. rewrite T. rewrite db_put_resources_eq.
  change (revisit_cdx o' a)
    with (mkCdx (url a) (ts a) (digest a) (mime o') (respHeaders o') (source a)
            (extraOpts a) None).
  rewrite NF. eexists. split; [reflexivity|]. simpl. auto.
Qed.

(** X21. A revisit entry whose payload is found locally is completed without
    a nested call, at any depth: after the one fetch of its own record it
    returns the local payload and takes the response headers and mime type
    of the original's entry as the catalog has it. *)
Theorem loadPayload_revisit_local_payload (this : RemoteArchiveDB) (depth : nat)
    (a o : Cdx) (w w1 : World) (s : option Stream) (ra : Remote R) (b : Bytes) :
  super_loadPayload env a w = Some b ->
  resolved_locally env a w = false ->
  loadSource env this (source a) w = (Ok s, w1) ->
  parse s = Some ra ->
  record_matches ra a = true ->
  truthy_str (r_origURL ra) = true ->
  lookupUrl env (default "" (r_origURL ra)) (r_origTS ra) w1 = Some o ->
  fails env ResourcesDbPut
    (emit (EvResourcesPut
             (mkCdx (url a) (ts a) (digest a) (mime o) (respHeaders o) (source a)
                (extraOpts a) None)) w1) = false ->
  exists w3,
    loadPayload env parse this depth (a, w)
    = (Ok (RPayload b),
       (mkCdx (url a) (ts a) (digest a) (mime o) (respHeaders o) (source a)
          (extraOpts a) None, w3))
    /\ trace w3
       = EvResourcesPut (mkCdx (url a) (ts a) (digest a) (mime o) (respHeaders o)
                           (source a) (extraOpts a) None)
         :: fetch_event env this a :: trace w.
Proof.
  intros S L F P M O C NF.
  pose proof (loadSource_world _ _ _ _ _ _ F) as W1.
  rewrite loadPayload_unfold, loadPayload_body_eq, L, F, P, M, O.
  simpl negb. cbv iota.
  rewrite follow_revisit_eq, C, S. cbv zeta. cbn [truthyR of_payload]. cbv beta iota.
  rewrite db_put_resources_eq.
  change (revisit_cdx o a)
    with (mkCdx (url a) (ts a) (digest a) (mime o) (respHeaders o) (source a)
            (extraOpts a) None).
  rewrite NF. eexists. split; [reflexivity|]. simpl. now rewrite W1.
Qed.



End RevisitExtras.

(* ===================================================================== *)
(** * More on the buffering reader                                         *)
(* ===================================================================== *)

Section ReaderExtras.

Context {R : Type} `{AsyncIterReader R}.
Variable env : Env.

Lemma byteLength_app (a b : Bytes) : byteLength (a ++ b) = byteLength a + byteLength b.
Proof. unfold byteLength. rewrite length_app. lia. Qed.

Lemma gen_next_started (pos : GenPos) (p : PayloadBufferingReader R) (w : World) :
  pos = GenSuspended \/ (pos = GenStart /\ pb_alreadyRead p = false) ->
  gen_next env pos (p, w) = iter_loop env (p, w).
Proof. rewrite gen_next_eq. intros [->|[-> ->]]; reflexivity. Qed.

(** X23. [setLimitSkip] called without arguments, with a limit of -1, or
    with a skip that is not positive (a limit alone, say) leaves committing
    as it is: only the wrapped reader changes, which gets the call with the
    defaults filled in; what is buffered and the world stay as they are. *)
Theorem setLimitSkip_keeps_commit (olimit oskip : option Z)
    (p : PayloadBufferingReader R) (w : World) :
  default (-1) olimit = -1 \/ default 0 oskip <= 0 ->
  setLimitSkip olimit oskip (p, w)
  = (Ok tt,
     (set_reader (rd_setLimitSkip (default (-1) olimit) (default 0 oskip) (pb_reader p)) p,
      w)).
Proof.
  intros C. rewrite setLimitSkip_eq. cbv zeta.
  assert (E : negb (Z.eqb (default (-1) olimit) (-1)) && Z.ltb 0 (default 0 oskip) = false).
  { destruct C as [->|C]; [reflexivity|].
    apply andb_false_iff. right. now apply Z.ltb_ge. }
  now rewrite E.
Qed.

(** X24. A consumer that stops before the end (its loop is left while the
    generator is suspended) has changed nothing outside the reader: no
    commit, no warning. The chunks it was given are buffered behind those
    already there, they are the items pulled from the wrapped reader, in
    order, one [next()] each, and [alreadyRead] and [fullbuff] are as
    before. *)
Theorem consume_partial (fuel : nat) :
  forall (pos : GenPos) (p p1 : PayloadBufferingReader R) (w w1 : World) (ys : list Bytes),
    pos = GenSuspended \/ (pos = GenStart /\ pb_alreadyRead p = false) ->
    consume env fuel pos (p, w) = (Ok (ys, GenSuspended), (p1, w1)) ->
    w1 = w
    /\ pb_chunks p1 = pb_chunks p ++ ys
    /\ pulls (List.length ys) (pb_reader p) = (pb_reader p1, map Some ys)
    /\ pb_alreadyRead p1 = pb_alreadyRead p
    /\ pb_fullbuff p1 = pb_fullbuff p
    /\ pb_commit p1 = pb_commit p.
Proof.
  induction fuel as [|fuel IH]; intros pos p p1 w w1 ys Hpos E.
  - simpl in E. unfold st_ret in E. inversion E; subst.
    simpl. rewrite app_nil_r. repeat split.
  - cbn [consume] in E. unfold st_bind at 1 in E.
    rewrite (gen_next_started pos p w Hpos), iter_loop_eq in E.
    destruct (rd_pull (pb_reader p)) as [r' [chunk|]] eqn:Pl.
    + unfold st_bind at 1 in E.
      destruct (consume env fuel GenSuspended (buffered chunk (set_reader r' p), w))
        as [[[rest pos']|e] [p2 w2]] eqn:C; [|discriminate].
      unfold st_ret in E. simpl in E. inversion E; subst.
      apply IH in C; [|now left].
      destruct C as (-> & Cs & P & A & F & Cm).
      change (pb_reader (buffered chunk (set_reader r' p))) with r' in P.
      simpl in Cs, A, F, Cm. rewrite <- app_assoc in Cs. simpl in Cs.
      cbn [List.length]. rewrite pulls_S, Pl, P. simpl. repeat split; assumption.
    + cbv zeta in E. unfold st_ret in E. inversion E.
Qed.

(** X25. [size] counts the bytes handed out: over any stretch of a
    consumer's loop, wherever the generator stood before and stands after,
    it grows by the total length of the chunks given. It is not reset when
    the stream ends, unlike [chunks]. *)
Theorem size_counts_bytes (fuel : nat) :
  forall (pos pos' : GenPos) (p p1 : PayloadBufferingReader R) (w w1 : World)
         (ys : list Bytes),
    consume env fuel pos (p, w) = (Ok (ys, pos'), (p1, w1)) ->
    pb_size p1 = pb_size p + byteLength (concat ys).
Proof.
  induction fuel as [|fuel IH]; intros pos pos' p p1 w w1 ys E.
  - simpl in E. unfold st_ret in E. inversion E; subst. simpl.
    unfold byteLength. simpl. lia.
  - cbn [consume] in E. unfold st_bind at 1 in E. rewrite gen_next_eq in E.
    destruct pos; [destruct (pb_alreadyRead p)|..].
    1,4: (simpl in E; unfold st_ret in E; inversion E; subst; simpl;
          unfold byteLength; simpl; lia).
    all: rewrite iter_loop_eq in E;
      destruct (rd_pull (pb_reader p)) as [r' [chunk|]];
      [ unfold st_bind at 1 in E;
        destruct (consume env fuel GenSuspended (buffered chunk (set_reader r' p), w))
          as [[[rest pos2]|e] [p2 w2]] eqn:C; [|discriminate];
        unfold st_ret in E; simpl in E; inversion E; subst;
        apply IH in C; rewrite C; simpl; rewrite byteLength_app; lia
      | cbv zeta in E; unfold st_ret in E; inversion E; subst; simpl;
        unfold byteLength; simpl; lia ].
Qed.

(** X26. [readFully] on a reader not yet read, over a wrapped reader that
    gives the chunks [ys] and then ends: with enough turns it returns the
    concatenation of what was buffered and [ys], and the reader is marked
    as read. *)
Theorem readFully_returns_all (fuel : nat) (p : PayloadBufferingReader R) (w : World)
    (ys : list Bytes) (r1 : R) :
  pb_alreadyRead p = false ->
  pulls (S (List.length ys)) (pb_reader p) = (r1, map Some ys ++ [None]) ->
  (List.length ys < fuel)%nat ->
  exists p1 w1,
    readFully env fuel (p, w) = (Ok (Some (Some (concat (pb_chunks p ++ ys)))), (p1, w1))
    /\ pb_alreadyRead p1 = true
    /\ pb_reader p1 = r1.
Proof.
  intros A P F.
  destruct (consume_reaches_end env ys fuel GenStart p w r1) as (p1 & w1 & E);
    [right; now split|exact P|exact F|].
  exists p1, w1. rewrite (readFully_eq env fuel p p1 w w1 ys E).
  apply consume_to_end in E; [|right; now split].
  destruct E as (P' & Fb & A1 & _).
  rewrite P in P'. injection P' as ->. rewrite Fb. auto.
Qed.

(** X27. [readFully] can be repeated, unlike iteration: once it has returned
    a buffer, every later [readFully] returns the same buffer at once,
    without reading the wrapped reader, committing or logging again. *)
Theorem readFully_repeatable (fuel fuel' : nat) (p0 p1 : PayloadBufferingReader R)
    (w0 w1 w : World) (buf : option Bytes) :
  readFully env fuel (p0, w0) = (Ok (Some buf), (p1, w1)) ->
  readFully env (S fuel') (p1, w) = (Ok (Some buf), (p1, w)).
Proof.
  unfold readFully at 1. unfold st_bind at 1.
  destruct (consume env fuel GenStart (p0, w0)) as [[[ys pos]|e] [p2 w2]] eqn:E;
    [|discriminate].
  unfold st_bind, get_obj. simpl.
  destruct pos; unfold st_ret; try discriminate. intros Q. inversion Q; subst.
  assert (A : pb_alreadyRead p1 = true).
  { destruct (pb_alreadyRead p0) eqn:A0.
    - destruct fuel as [|fuel]; [discriminate|].
      cbn [consume] in E. unfold st_bind in E. rewrite gen_next_eq, A0 in E.
      unfold st_ret in E. inversion E; subst. exact A0.
    - apply consume_to_end in E; [|right; now split]. tauto. }
  unfold readFully. cbn [consume]. unfold st_bind. rewrite gen_next_eq, A.
  reflexivity.
Qed.

End ReaderExtras.

(* ===================================================================== *)
(** * Concrete runs of the further properties                              *)
(* ===================================================================== *)


(** Committing under "sha1:ABC" leaves "sha1:XYZ" alone. *)
Lemma commitPayload_other_digests_untouched_witness :
  as_key (VStr "sha1:ABC") <> Some "sha1:XYZ"
  /\ payloadStore (snd (commitPayload env_plain db (VBytes hello) (VStr "sha1:ABC")
                          world_with_payload)) !! "sha1:XYZ"
     = payloadStore world_with_payload !! "sha1:XYZ"
  /\ digestRefStore (snd (commitPayload env_plain db (VBytes hello) (VStr "sha1:ABC")
                            world_with_payload)) !! "sha1:XYZ"
     = digestRefStore world_with_payload !! "sha1:XYZ"
  /\ resourcesStore (snd (commitPayload env_plain db (VBytes hello) (VStr "sha1:ABC")
                            world_with_payload))
     = resourcesStore world_with_payload.
Proof.
  split; [discriminate|].
  apply (commitPayload_other_digests_untouched env_plain db (VBytes hello)
           (VStr "sha1:ABC") world_with_payload "sha1:XYZ").
  discriminate.
Defined.

(** [hello] committed twice, and [world] committed after [hello]. *)
Lemma commitPayload_upsert_witness :
  (forall op w, fails env_plain op w = false)
  /\ truthy (VBytes hello) = true
  /\ truthy (VBytes world) = true
  /\ payloadStore (snd (commitPayload env_plain db (VBytes hello) (VStr "sha1:ABC")
                          once_world))
     = payloadStore once_world
  /\ digestRefStore (snd (commitPayload env_plain db (VBytes hello) (VStr "sha1:ABC")
                            once_world))
     = digestRefStore once_world
  /\ payloadStore (snd (commitPayload env_plain db (VBytes world) (VStr "sha1:ABC")
                          once_world)) !! "sha1:ABC"
     = Some (VBytes world).
Proof.
  split; [intros op w; reflexivity|]. split; [reflexivity|]. split; [reflexivity|].
  apply (commitPayload_upsert env_plain db (VBytes hello) (VBytes world) "sha1:ABC"
           empty_world);
    [intros op w; reflexivity | reflexivity | reflexivity].
Defined.

(** The row of "sha1:ABC" gets size 5 and keeps its count 2. *)
Lemma commitPayload_refreshes_size_witness :
  (forall op w, fails env_plain op w = false)
  /\ useRefCounts db_counting = true
  /\ truthy (VBytes hello) = true
  /\ digestRefStore world_with_ref !! "sha1:ABC" = Some (mkDigestRef 2 None)
  /\ digestRefStore (snd (commitPayload env_plain db_counting (VBytes hello)
                            (VStr "sha1:ABC") world_with_ref)) !! "sha1:ABC"
     = Some (mkDigestRef (ref_count (mkDigestRef 2 None)) (js_length (VBytes hello))).
Proof.
  split; [intros op w; reflexivity|]. split; [reflexivity|]. split; [reflexivity|].
  split; [reflexivity|].
  apply (commitPayload_refreshes_size env_plain db_counting (VBytes hello) "sha1:ABC"
           (mkDigestRef 2 None) world_with_ref);
    [intros op w; reflexivity | reflexivity | reflexivity | reflexivity].
Defined.

(** [entry_resolved] with its payload in the store. *)
Lemma loadPayload_local_hit_witness :
  super_loadPayload env_plain entry_resolved world_with_payload = Some hello
  /\ respHeaders entry_resolved = Some record_headers
  /\ mime entry_resolved <> Some REVISIT
  /\ loadPayload env_plain (parse_as inline_record) db 0 (entry_resolved, world_with_payload)
     = (Ok (RPayload hello), (entry_resolved, world_with_payload)).
Proof.
  split; [reflexivity|]. split; [reflexivity|]. split; [discriminate|].
  apply (loadPayload_local_hit env_plain (parse_as inline_record) db 0 entry_resolved
           world_with_payload hello record_headers);
    [reflexivity | reflexivity | discriminate].
Defined.


(** The record of [entry] is a revisit of a capture the catalog lacks. *)
Lemma loadPayload_revisit_target_missing_witness :
  resolved_locally env_plain entry empty_world = false
  /\ loadSource env_plain db (source entry) empty_world = (Ok (Some [x01]), fetched_world)
  /\ parse_as revisitA (Some [x01]) = Some revisitA
  /\ record_matches revisitA entry = true
  /\ truthy_str (r_origURL revisitA) = true
  /\ lookupUrl env_plain (default "" (r_origURL revisitA)) (r_origTS revisitA)
       fetched_world = None
  /\ loadPayload env_plain (parse_as revisitA) db 0 (entry, empty_world)
     = (Ok RNull, (entry, emit (fetch_event env_plain db entry) empty_world)).
Proof.
  split; [reflexivity|]. split; [reflexivity|]. split; [reflexivity|].
  split; [reflexivity|]. split; [reflexivity|]. split; [reflexivity|].
  apply (loadPayload_revisit_target_missing env_plain (parse_as revisitA) db 0 entry
           empty_world fetched_world (Some [x01]) revisitA);
    reflexivity.
Defined.


(** [entry] after its inline record was accepted. *)
Lemma loadPayload_entry_update_witness :
  resolved_locally env_plain entry empty_world = false
  /\ loadSource env_plain db (source entry) empty_world = (Ok (Some [x01]), fetched_world)
  /\ parse_as inline_record (Some [x01]) = Some inline_record
  /\ record_matches inline_record entry = true
  /\ truthy_str (r_origURL inline_record) = false
  /\ loadPayload env_plain (parse_as inline_record) db 0 (entry, empty_world)
     = (Ok (RPayload hello), (fst (snd inline_run), snd (snd inline_run)))
  /\ truthyR (@RPayload ChunkReader hello) = true
  /\ respHeaders (fst (snd inline_run)) = r_respHeaders inline_record
  /\ extraOpts (fst (snd inline_run))
     = match r_extraOpts inline_record with
       | Some o => Some o
       | None => extraOpts entry
       end
  /\ mime (fst (snd inline_run)) = mime entry
  /\ payload (fst (snd inline_run)) = payload entry.
Proof.
  split; [reflexivity|]. split; [reflexivity|]. split; [reflexivity|].
  split; [reflexivity|]. split; [reflexivity|]. split; [vm_compute; reflexivity|].
  split; [reflexivity|].
  apply (loadPayload_entry_update env_plain (parse_as inline_record) db 0 entry
           (fst (snd inline_run)) empty_world fetched_world (snd (snd inline_run))
           (Some [x01]) inline_record (RPayload hello));
    [reflexivity | reflexivity | reflexivity | reflexivity | reflexivity
    | vm_compute; reflexivity | reflexivity].
Defined.

(** [entry] with a record still to be streamed: a new buffering reader. *)
Lemma loadPayload_result_shape_witness :
  resolved_locally env_plain entry empty_world = false
  /\ loadSource env_plain db (source entry) empty_world = (Ok (Some [x01]), fetched_world)
  /\ parse_as streaming_record (Some [x01]) = Some streaming_record
  /\ record_matches streaming_record entry = true
  /\ truthy_str (r_origURL streaming_record) = false
  /\ fst (loadPayload env_plain (parse_as streaming_record) db 0 (entry, empty_world))
     = Ok (match r_payload streaming_record, r_reader streaming_record with
           | Some b, _ => RPayload b
           | None, Some rd =>
               if truthy_str (r_digest streaming_record)
               then RBuffering (mkPBR db rd (r_digest streaming_record) (url entry)
                                  [] 0 None true false)
               else RReader rd
           | None, None => RNull
           end).
Proof.
  split; [reflexivity|]. split; [reflexivity|]. split; [reflexivity|].
  split; [reflexivity|]. split; [reflexivity|].
  apply (loadPayload_result_shape env_plain (parse_as streaming_record) db 0 entry
           empty_world fetched_world (Some [x01]) streaming_record);
    reflexivity.
Defined.

(** [entry] with a record that has neither payload nor reader. *)
Lemma loadPayload_empty_record_witness :
  resolved_locally env_plain entry empty_world = false
  /\ loadSource env_plain db (source entry) empty_world = (Ok (Some [x01]), fetched_world)
  /\ parse_as bare_record (Some [x01]) = Some bare_record
  /\ record_matches bare_record entry = true
  /\ truthy_str (r_origURL bare_record) = false
  /\ r_payload bare_record = None
  /\ r_reader bare_record = None
  /\ loadPayload env_plain (parse_as bare_record) db 0 (entry, empty_world)
     = (Ok RNull, (entry, emit (fetch_event env_plain db entry) empty_world)).
Proof.
  split; [reflexivity|]. split; [reflexivity|]. split; [reflexivity|].
  split; [reflexivity|]. split; [reflexivity|]. split; [reflexivity|].
  split; [reflexivity|].
  apply (loadPayload_empty_record env_plain (parse_as bare_record) db 0 entry
           empty_world fetched_world (Some [x01]) bare_record);
    reflexivity.
Defined.

(** [entryA] resolved through [entryO], whose record has the payload. *)
Lemma loadPayload_revisit_resolves_witness :
  super_loadPayload env_revisit entryA empty_world = None
  /\ loadSource env_revisit db (source entryA) empty_world
     = (Ok (Some [x0a]), revisit_fetched_world)
  /\ parse_revisit (Some [x0a]) = Some revisitO
  /\ record_matches revisitO entryA = true
  /\ truthy_str (r_origURL revisitO) = true
  /\ lookupUrl env_revisit (default "" (r_origURL revisitO)) (r_origTS revisitO)
       revisit_fetched_world = Some entryO
  /\ (0 < 2)%nat
  /\ loadPayload env_revisit parse_revisit db (0 + 1) (entryO, revisit_fetched_world)
     = (Ok (RPayload hello), (fst (snd nested_run), snd (snd nested_run)))
  /\ truthyR (@RPayload ChunkReader hello) = true
  /\ fails env_revisit ResourcesDbPut
       (emit (EvResourcesPut
                (mkCdx (url entryA) (ts entryA) (digest entryA)
                   (mime (fst (snd nested_run))) (respHeaders (fst (snd nested_run)))
                   (source entryA) (extraOpts entryA) None))
          (snd (snd nested_run))) = false
  /\ exists w3,
      loadPayload env_revisit parse_revisit db 0 (entryA, empty_world)
      = (Ok (RPayload hello),
         (mkCdx (url entryA) (ts entryA) (digest entryA)
            (mime (fst (snd nested_run))) (respHeaders (fst (snd nested_run)))
            (source entryA) (extraOpts entryA) None, w3))
      /\ resourcesStore w3
         = <[(url entryA, ts entryA) :=
               mkCdx (url entryA) (ts entryA) (digest entryA)
                 (mime (fst (snd nested_run))) (respHeaders (fst (snd nested_run)))
                 (source entryA) (extraOpts entryA) None]>
             (resourcesStore (snd (snd nested_run)))
      /\ payloadStore w3 = payloadStore (snd (snd nested_run))
      /\ fetch_count w3 = fetch_count (snd (snd nested_run)).
Proof.
  split; [reflexivity|]. split; [reflexivity|]. split; [reflexivity|].
  split; [reflexivity|]. split; [reflexivity|]. split; [reflexivity|].
  split; [lia|]. split; [vm_compute; reflexivity|]. split; [reflexivity|].
  split; [reflexivity|].
  apply (loadPayload_revisit_resolves env_revisit parse_revisit db 0 entryA entryO
           (fst (snd nested_run)) empty_world revisit_fetched_world (snd (snd nested_run))
           (Some [x0a]) revisitO (RPayload hello));
    [reflexivity | reflexivity | reflexivity | reflexivity | reflexivity | reflexivity
    | lia | vm_compute; reflexivity | reflexivity | reflexivity].
Defined.

(** [entryA] with its payload in the store already. *)
Lemma loadPayload_revisit_local_payload_witness :
  super_loadPayload env_revisit entryA world_with_payload = Some hello
  /\ resolved_locally env_revisit entryA world_with_payload = false
  /\ loadSource env_revisit db (source entryA) world_with_payload
     = (Ok (Some [x0a]), emit (fetch_event env_revisit db entryA) world_with_payload)
  /\ parse_revisit (Some [x0a]) = Some revisitO
  /\ record_matches revisitO entryA = true
  /\ truthy_str (r_origURL revisitO) = true
  /\ lookupUrl env_revisit (default "" (r_origURL revisitO)) (r_origTS revisitO)
       (emit (fetch_event env_revisit db entryA) world_with_payload) = Some entryO
  /\ fails env_revisit ResourcesDbPut
       (emit (EvResourcesPut
                (mkCdx (url entryA) (ts entryA) (digest entryA) (mime entryO)
                   (respHeaders entryO) (source entryA) (extraOpts entryA) None))
          (emit (fetch_event env_revisit db entryA) world_with_payload)) = false
  /\ exists w3,
      loadPayload env_revisit parse_revisit db 0 (entryA, world_with_payload)
      = (Ok (RPayload hello),
         (mkCdx (url entryA) (ts entryA) (digest entryA) (mime entryO)
            (respHeaders entryO) (source entryA) (extraOpts entryA) None, w3))
      /\ trace w3
         = EvResourcesPut (mkCdx (url entryA) (ts entryA) (digest entryA) (mime entryO)
                             (respHeaders entryO) (source entryA) (extraOpts entryA) None)
           :: fetch_event env_revisit db entryA :: trace world_with_payload.
Proof.
  split; [reflexivity|]. split; [reflexivity|]. split; [reflexivity|].
  split; [reflexivity|]. split; [reflexivity|]. split; [reflexivity|].
  split; [reflexivity|]. split; [reflexivity|].
  apply (loadPayload_revisit_local_payload env_revisit parse_revisit db 0 entryA entryO
           world_with_payload (emit (fetch_event env_revisit db entryA) world_with_payload)
           (Some [x0a]) revisitO hello);
    reflexivity.
Defined.


(** [setLimitSkip(5)]: a limit and no skip. *)
Lemma setLimitSkip_keeps_commit_witness :
  (default (-1) (Some 5) = -1 \/ default 0 (@None Z) <= 0)
  /\ setLimitSkip (Some 5) None (buffering reader_whole, empty_world)
     = (Ok tt,
        (set_reader (rd_setLimitSkip (default (-1) (Some 5)) (default 0 None)
                       (pb_reader (buffering reader_whole)))
           (buffering reader_whole),
         empty_world)).
Proof.
  split; [right; simpl; lia|].
  apply (setLimitSkip_keeps_commit (Some 5) None (buffering reader_whole) empty_world).
  right. simpl. lia.
Defined.

(** One chunk of [reader_whole] taken, then the consumer stops. *)
Lemma consume_partial_witness :
  (GenStart = GenSuspended
   \/ (GenStart = GenStart /\ pb_alreadyRead (buffering reader_whole) = false))
  /\ consume env_plain 1 GenStart (buffering reader_whole, empty_world)
     = (Ok ([hello], GenSuspended), (fst (snd first_chunk_run), snd (snd first_chunk_run)))
  /\ snd (snd first_chunk_run) = empty_world
  /\ pb_chunks (fst (snd first_chunk_run)) = pb_chunks (buffering reader_whole) ++ [hello]
  /\ pulls (List.length [hello]) (pb_reader (buffering reader_whole))
     = (pb_reader (fst (snd first_chunk_run)), map Some [hello])
  /\ pb_alreadyRead (fst (snd first_chunk_run)) = pb_alreadyRead (buffering reader_whole)
  /\ pb_fullbuff (fst (snd first_chunk_run)) = pb_fullbuff (buffering reader_whole)
  /\ pb_commit (fst (snd first_chunk_run)) = pb_commit (buffering reader_whole).
Proof.
  split; [right; split; reflexivity|]. split; [vm_compute; reflexivity|].
  apply (consume_partial env_plain 1 GenStart (buffering reader_whole)
           (fst (snd first_chunk_run)) empty_world (snd (snd first_chunk_run)) [hello]);
    [right; split; reflexivity | vm_compute; reflexivity].
Defined.

(** All ten bytes of [reader_whole] counted. *)
Lemma size_counts_bytes_witness :
  consume env_plain 3 GenStart (buffering reader_whole, empty_world)
    = (Ok ([hello; world], GenDone), (fst (snd whole_run), snd (snd whole_run)))
  /\ pb_size (fst (snd whole_run))
     = pb_size (buffering reader_whole) + byteLength (concat [hello; world]).
Proof.
  split; [vm_compute; reflexivity|].
  apply (size_counts_bytes env_plain 3 GenStart GenDone (buffering reader_whole)
           (fst (snd whole_run)) empty_world (snd (snd whole_run)) [hello; world]).
  vm_compute; reflexivity.
Defined.

(** [readFully] over [reader_whole] gives "helloworld". *)
Lemma readFully_returns_all_witness :
  pb_alreadyRead (buffering reader_whole) = false
  /\ pulls (S (List.length [hello; world])) (pb_reader (buffering reader_whole))
     = (mkChunkReader [] (Some 0) 0, map Some [hello; world] ++ [None])
  /\ (List.length [hello; world] < 3)%nat
  /\ exists p1 w1,
      readFully env_plain 3 (buffering reader_whole, empty_world)
      = (Ok (Some (Some (concat (pb_chunks (buffering reader_whole) ++ [hello; world])))),
         (p1, w1))
      /\ pb_alreadyRead p1 = true
      /\ pb_reader p1 = mkChunkReader [] (Some 0) 0.
Proof.
  split; [reflexivity|]. split; [reflexivity|]. split; [simpl; lia|].
  apply (readFully_returns_all env_plain 3 (buffering reader_whole) empty_world
           [hello; world] (mkChunkReader [] (Some 0) 0));
    [reflexivity | reflexivity | simpl; lia].
Defined.

(** [readFully] a second time, on the reader the first left. *)
Lemma readFully_repeatable_witness :
  readFully env_plain 3 (buffering reader_whole, empty_world)
    = (Ok (Some (Some (concat [hello; world]))),
       (fst (snd read_run), snd (snd read_run)))
  /\ readFully env_plain 1 (fst (snd read_run), empty_world)
     = (Ok (Some (Some (concat [hello; world]))), (fst (snd read_run), empty_world)).
Proof.
  split; [vm_compute; reflexivity|].
  apply (readFully_repeatable env_plain 3 0 (buffering reader_whole) (fst (snd read_run))
           empty_world (snd (snd read_run)) empty_world (Some (concat [hello; world]))).
  vm_compute; reflexivity.
Defined.
